(** * google-calendar-logger: the session-continuity logic of [GoogleCalendarLogger]

    A shallow embedding of the logger class: the inactivity predicate, the
    description log, the scan for the latest incomplete event, and the three
    public operations [logStart], [logActivity] and [logEnd] run against a
    model of the remote calendar. *)

From Stdlib Require Import ZArith List String Ascii Bool Lia DecimalString.
Import ListNotations.

Set Warnings "-register-all".

Local Open Scope string_scope.
Local Open Scope list_scope.
Local Open Scope Z_scope.

(** JavaScript string concatenation (template literals and [+=]). *)
Infix "+++" := String.append (right associativity, at level 60).

(** The line feed of the template literal [`\n`]. *)
Definition LF : string := String (ascii_of_nat 10) EmptyString.

(* ================================================================= *)
(** ** JavaScript values *)

(** The JSON-shaped values an event of the API can carry in a property. *)
Inductive JSVal : Type :=
| JSUndefined
| JSNull
| JSBool (b : bool)
| JSNum (n : Z)
| JSStr (s : string)
| JSArr (items : list JSVal)
| JSObj (props : list (string * JSVal)).

(** An expression either yields a value or throws. *)
Inductive Completion (A : Type) : Type :=
| Normal (a : A)
| Throw (message : string).
Arguments Normal {A} a.
Arguments Throw {A} message.

Definition bindC {A B} (c : Completion A) (k : A -> Completion B) : Completion B :=
  match c with
  | Normal a => k a
  | Throw m => Throw m
  end.

(** Own property [k] of an object literal, [undefined] when there is none. *)
Fixpoint lookupProp (k : string) (props : list (string * JSVal)) : JSVal :=
  match props with
  | [] => JSUndefined
  | (k', v) :: rest => if String.eqb k k' then v else lookupProp k rest
  end.

(** [v.k] and [const { k } = v], for the names the logger reads
    ([private], [completed]); none of them is defined by a prototype, so a
    primitive or an array answers [undefined].  Reading a property of
    [undefined] or [null] throws a TypeError. *)
Definition getProp (v : JSVal) (k : string) : Completion JSVal :=
  match v with
  | JSUndefined => Throw "TypeError: Cannot read properties of undefined"
  | JSNull => Throw "TypeError: Cannot read properties of null"
  | JSObj props => Normal (lookupProp k props)
  | JSBool _ | JSNum _ | JSStr _ | JSArr _ => Normal JSUndefined
  end.

(** [v === 'text'] *)
Definition strictEqualsString (v : JSVal) (text : string) : bool :=
  match v with
  | JSStr s => String.eqb s text
  | _ => false
  end.

(** ToBoolean *)
Definition truthy (v : JSVal) : bool :=
  match v with
  | JSUndefined | JSNull => false
  | JSBool b => b
  | JSNum n => negb (n =? 0)
  | JSStr s => negb (String.eqb s "")
  | JSArr _ | JSObj _ => true
  end.

(** [Array.prototype.find]: the first element whose callback result is
    truthy; an exception of the callback leaves the scan. *)
Fixpoint array_find {A} (callback : A -> Completion JSVal) (l : list A)
  : Completion (option A) :=
  match l with
  | [] => Normal None
  | x :: rest =>
      match callback x with
      | Throw m => Throw m
      | Normal v => if truthy v then Normal (Some x) else array_find callback rest
      end
  end.

(** A JavaScript number that holds a time in milliseconds: an integer (exact
    in a double within the range of [Date]) or [NaN]. *)
Inductive JSNumber : Type :=
| NaN
| Num (ms : Z).

(** [a - b] with [a] a valid time *)
Definition minus (a : Z) (b : JSNumber) : JSNumber :=
  match b with
  | NaN => NaN
  | Num b => Num (a - b)
  end.

(** [a > b]: every comparison with [NaN] is false. *)
Definition greaterThan (a : JSNumber) (b : Z) : bool :=
  match a with
  | NaN => false
  | Num a => a >? b
  end.

(* ================================================================= *)
(** ** Events of the calendar *)

(** A server-assigned timestamp as the logger receives it: text.  The text is
    kept up to what [new Date(text)] makes of it: either the RFC 3339 text of
    an instant (milliseconds since the epoch), or text [Date] cannot parse. *)
Inductive Stamp : Type :=
| Instant (ms : Z)
| Garbled (raw : string).

(** [start] and [end] of an event resource; [dateTime] is the instant whose
    [toISOString()] is sent. *)
Record EventDateTime : Type := {
  dateTime : Z;
  timeZone : string
}.

(** The fields of an event the logger reads or writes.  An absent property
    ([undefined]) is [None]. *)
Record Event : Type := {
  ev_id : nat;
  ev_summary : option string;
  ev_description : option string;
  ev_start : EventDateTime;
  ev_end : EventDateTime;
  ev_updated : option Stamp;
  ev_created : option Stamp;
  ev_extendedProperties : JSVal
}.

(** The [resource] of an insert or patch request. *)
Record Resource : Type := {
  summary : option string;
  description : option string;
  start : option EventDateTime;
  end_ : option EventDateTime;
  extendedProperties : option JSVal
}.

(** [{ private: { completed: value } }] *)
Definition completedProperty (value : string) : JSVal :=
  JSObj [("private", JSObj [("completed", JSStr value)])].

(* ================================================================= *)
(** ** The logger instance and its host *)

(** An entry of [this.strings]: a literal or a function of the project
    name. *)
Inductive LogName : Type :=
| Literal (text : string)
| Template (f : string -> string).

Record Strings : Type := {
  activityStarted : LogName;
  activityInProgress : LogName;
  activityConcluded : LogName;
  activityLogged : LogName;
  closedDueToInactivity : LogName
}.

Definition getDefaultStrings : Strings := {|
  activityStarted := Template (fun projectName => "Started working on " +++ projectName);
  activityInProgress := Template (fun projectName => "Working on " +++ projectName);
  activityConcluded := Template (fun projectName => "Worked on " +++ projectName);
  activityLogged := Template (fun projectName => "Activity in " +++ projectName);
  closedDueToInactivity := Template (fun _ => "(closed due to inactivity)")
|}.

(** The instance ([this]) once its calendar connection is established.
    [minutesUntilInactivity] is a whole number of minutes. *)
Record Logger : Type := {
  calendarSummary : string;
  calendarId : string;
  minutesUntilInactivity : Z;
  strings : Strings
}.

(** What the process gets from its surroundings: the successive readings of the
    wall clock (each [new Date()] and each server timestamp takes the next
    one), the local time zone, and the fate of each request sent to the API
    (an error, or [None] when it is served). *)
Record Host : Type := {
  clock : nat -> Z;
  getTimezoneOffset : Z -> Z;
  tz_guess : string;
  net : nat -> option string
}.

Section Helpers.

Variable host : Host.
Variable this : Logger.

Definition msUntilInactivity : Z :=
  minutesUntilInactivity this * 1000 * 60.

(** [date.getHours()] and [date.getMinutes()]: local time, which is UTC minus
    the time zone offset (in minutes). *)
Definition localTime (date : Z) : Z :=
  date - getTimezoneOffset host date * 60000.

Definition getHours (date : Z) : Z := (localTime date / 3600000) mod 24.
Definition getMinutes (date : Z) : Z := (localTime date / 60000) mod 60.

(** [`${n}`] for an integer *)
Definition toString (n : Z) : string :=
  NilEmpty.string_of_int (Z.to_int n).

(** [s.slice(-n)] *)
Definition sliceLast (n : nat) (s : string) : string :=
  substring (String.length s - n) n s.

(** [`0${n}`.slice(-2)] *)
Definition pad2 (n : Z) : string := sliceLast 2 ("0" +++ toString n).

Definition addToDescription (date : Z) (activity : string)
    (description : option string) : string :=
  (* description = '' *)
  let description := match description with Some d => d | None => "" end in
  (* If not empty description, add newline *)
  let description :=
    if String.eqb description "" then description else description +++ LF in
  let hh := pad2 (getHours date) in
  let mm := pad2 (getMinutes date) in
  (* Add the new activity *)
  description +++ hh +++ ":" +++ mm +++ " – " +++ activity.

Definition getLogName (logName : LogName) : string :=
  match logName with
  | Template f => f (calendarSummary this)
  | Literal text => text
  end.

(** [a || b] on two timestamp properties: [undefined] and the empty string
    are falsy. *)
Definition orElse (a b : option Stamp) : option Stamp :=
  match a with
  | None => b
  | Some (Garbled raw) => if String.eqb raw "" then b else a
  | Some (Instant _) => a
  end.

(** [+new Date(x)] *)
Definition timeOf (x : option Stamp) : JSNumber :=
  match x with
  | Some (Instant ms) => Num ms
  | Some (Garbled _) => NaN
  | None => NaN
  end.

Definition hasInactivity (latestIncompleteLogEvent : Event) (currentTime : Z) : bool :=
  (* Check for inactivity *)
  let lastActivity :=
    timeOf (orElse (ev_updated latestIncompleteLogEvent)
                   (ev_created latestIncompleteLogEvent)) in
  greaterThan (minus currentTime lastActivity) msUntilInactivity.

End Helpers.

(* ================================================================= *)
(** ** The remote calendar and asynchronous operations *)

(** The calendar of the logger as the Calendar API keeps it (the API itself is
    not part of the repository): its events in the order they were inserted,
    together with how many clock readings and how many API requests the run
    has consumed so far. *)
Record World : Type := {
  events : list Event;
  ticks : nat;
  requests : nat
}.

(** What a promise is rejected with: the [err] of an API callback, passed on
    as it is, or an [Error] the logger constructs itself. *)
Inductive Rejection : Type :=
| ApiError (err : string)
| JSError (message : string).

(** How an [async] method ends.  [Uncaught] is an exception that escapes a
    callback; [OutOfFuel] belongs to the model only: the recursion of
    [logActivity] went deeper than the given bound. *)
Inductive Outcome (A : Type) : Type :=
| Resolved (a : A)
| Rejected (reason : Rejection)
| Uncaught (message : string)
| OutOfFuel.
Arguments Resolved {A} a.
Arguments Rejected {A} reason.
Arguments Uncaught {A} message.
Arguments OutOfFuel {A}.

Definition Async (A : Type) : Type := World -> Outcome A * World.

Definition resolve {A} (a : A) : Async A := fun w => (Resolved a, w).
Definition reject {A} (reason : Rejection) : Async A := fun w => (Rejected reason, w).
Definition settle {A} (o : Outcome A) : Async A := fun w => (o, w).

(** [await]: a rejection of the awaited promise rejects the method. *)
Definition await {A B} (p : Async A) (k : A -> Async B) : Async B :=
  fun w =>
    match p w with
    | (Resolved a, w') => k a w'
    | (Rejected reason, w') => (Rejected reason, w')
    | (Uncaught m, w') => (Uncaught m, w')
    | (OutOfFuel, w') => (OutOfFuel, w')
    end.

Declare Scope async_scope.
Delimit Scope async_scope with async.
Notation "x <- p ;; k" := (await p (fun x => k))
  (at level 100, p at next level, right associativity) : async_scope.
Notation "' pat <- p ;; k" := (await p (fun x => match x with pat => k end))
  (at level 100, pat pattern, p at next level, right associativity) : async_scope.
Notation "p ;; k" := (await p (fun _ => k))
  (at level 100, right associativity) : async_scope.

(** [{ calendarId, resource }] of [events.insert] *)
Record InsertParams : Type := {
  insert_calendarId : string;
  insert_resource : Resource
}.

(** [{ calendarId, eventId, resource }] of [events.patch] *)
Record PatchParams : Type := {
  patch_calendarId : string;
  patch_eventId : nat;
  patch_resource : Resource
}.

(** The parameters of [events.list]; [timeMin] and [timeMax] are the instants
    whose [toISOString()] is sent. *)
Record ListParams : Type := {
  list_calendarId : string;
  timeMin : Z;
  timeMax : Z;
  list_timeZone : string;
  singleEvents : bool;
  orderBy : string
}.

Definition orDefault {A} (field : option A) (current : A) : A :=
  match field with
  | Some v => v
  | None => current
  end.

(** Patch semantics: a field the resource gives replaces the event's, a field
    it leaves out stays; the server stamps [updated]. *)
Definition applyPatch (r : Resource) (stamp : Z) (e : Event) : Event := {|
  ev_id := ev_id e;
  ev_summary := match summary r with Some s => Some s | None => ev_summary e end;
  ev_description := match description r with Some d => Some d | None => ev_description e end;
  ev_start := orDefault (start r) (ev_start e);
  ev_end := orDefault (end_ r) (ev_end e);
  ev_updated := Some (Instant stamp);
  ev_created := ev_created e;
  ev_extendedProperties := orDefault (extendedProperties r) (ev_extendedProperties e)
|}.

(** A new event from an insert resource; the server assigns the identifier
    and stamps [created] and [updated]. *)
Definition newEvent (id : nat) (r : Resource) (s e : EventDateTime) (stamp : Z) : Event := {|
  ev_id := id;
  ev_summary := summary r;
  ev_description := description r;
  ev_start := s;
  ev_end := e;
  ev_updated := Some (Instant stamp);
  ev_created := Some (Instant stamp);
  ev_extendedProperties := orDefault (extendedProperties r) JSUndefined
|}.

(** An identifier no event of the calendar has. *)
Definition freshId (l : list Event) : nat := S (list_max (map ev_id l)).

Definition startOf (e : Event) : Z := dateTime (ev_start e).
Definition endOf (e : Event) : Z := dateTime (ev_end e).

(** [timeMin] is the exclusive lower bound of an event's end, [timeMax] the
    exclusive upper bound of its start. *)
Definition inWindow (tmin tmax : Z) (e : Event) : bool :=
  (tmin <? endOf e) && (startOf e <? tmax).

(** [orderBy: 'startTime']: ascending by start, events of equal start in the
    order they were inserted. *)
Fixpoint insertByStart (e : Event) (l : list Event) : list Event :=
  match l with
  | [] => [e]
  | x :: rest =>
      if startOf e <=? startOf x then e :: l else x :: insertByStart e rest
  end.

Definition orderByStartTime (l : list Event) : list Event :=
  fold_right insertByStart [] l.

Definition listing (p : ListParams) (l : list Event) : list Event :=
  orderByStartTime (filter (inWindow (timeMin p) (timeMax p)) l).

Fixpoint findById (id : nat) (l : list Event) : option Event :=
  match l with
  | [] => None
  | e :: rest => if Nat.eqb (ev_id e) id then Some e else findById id rest
  end.

(** The patch of a request applies to the event it names. *)
Definition patchWhere (p : PatchParams) (stamp : Z) (x : Event) : Event :=
  if Nat.eqb (ev_id x) (patch_eventId p)
  then applyPatch (patch_resource p) stamp x else x.

Definition tick (w : World) : World :=
  {| events := events w; ticks := S (ticks w); requests := requests w |}.

Definition sent (w : World) : World :=
  {| events := events w; ticks := ticks w; requests := S (requests w) |}.

Definition stored (l : list Event) (w : World) : World :=
  {| events := l; ticks := ticks w; requests := requests w |}.

Section Operations.

Variable host : Host.
Variable this : Logger.

Local Open Scope async_scope.

(** [new Date()] *)
Definition newDate : Async Z :=
  fun w => (Resolved (clock host (ticks w)), tick w).

Definition getCurrentTime : Async (Z * string) :=
  currentTime <- newDate ;;
  resolve (currentTime, tz_guess host).

(** *** The three API methods the logger calls

    Each hands [(err, response)] to its callback.  A request the network
    fails changes nothing. *)

Definition events_insert (p : InsertParams) : Async (option string * option Event) :=
  fun w =>
    match net host (requests w) with
    | Some err => (Resolved (Some err, None), sent w)
    | None =>
        let r := insert_resource p in
        match start r, end_ r with
        | Some s, Some e =>
            let ev := newEvent (freshId (events w)) r s e (clock host (ticks w)) in
            (Resolved (None, Some ev), stored (events w ++ [ev]) (tick (sent w)))
        | _, _ => (Resolved (Some "Missing start or end time.", None), sent w)
        end
    end.

Definition events_patch (p : PatchParams) : Async (option string * option Event) :=
  fun w =>
    match net host (requests w) with
    | Some err => (Resolved (Some err, None), sent w)
    | None =>
        match findById (patch_eventId p) (events w) with
        | None => (Resolved (Some "Not Found", None), sent w)
        | Some e =>
            let stamp := clock host (ticks w) in
            (Resolved (None, Some (patchWhere p stamp e)),
             stored (map (patchWhere p stamp) (events w)) (tick (sent w)))
        end
    end.

Definition events_list (p : ListParams) : Async (option string * list Event) :=
  fun w =>
    match net host (requests w) with
    | Some err => (Resolved (Some err, []), sent w)
    | None => (Resolved (None, listing p (events w)), sent w)
    end.

(** *** Log methods *)

(** [eventParams] of [logStart] *)
Definition startParams (startTime : Z) (timeZone : string) : InsertParams :=
  let logName := getLogName this (activityStarted (strings this)) in
  {|
    insert_calendarId := calendarId this;
    insert_resource := {|
      summary := Some logName;
      description := Some (addToDescription host startTime logName None);
      start := Some {| dateTime := startTime; timeZone := timeZone |};
      (* Set initial duration of 1 second *)
      end_ := Some {| dateTime := startTime + 1000; timeZone := timeZone |};
      extendedProperties := Some (completedProperty "false")
    |}
  |}.

(** Create a start event *)
Definition logStart : Async unit :=
  '(startTime, timeZone) <- getCurrentTime ;;
  (* Create starting event *)
  let eventParams := startParams startTime timeZone in
  '(err, response) <- events_insert eventParams ;;
  match err with
  | Some err => reject (ApiError err)
  | None => resolve tt
  end.

(** The [find] callback: [try { const { completed } =
    event.extendedProperties.private; return completed === 'false'; }
    catch (err) {}] *)
Definition isIncomplete (event : Event) : Completion JSVal :=
  let attempt :=
    bindC (getProp (ev_extendedProperties event) "private") (fun private =>
    bindC (getProp private "completed") (fun completed =>
    Normal (JSBool (strictEqualsString completed "false")))) in
  match attempt with
  | Normal v => Normal v
  | Throw _ => Normal JSUndefined
  end.

(** The callback of [events.list] in [getLatestIncompleteLogEvent]. *)
Definition latestIncompleteOf (err : option string) (items : list Event) : Outcome Event :=
  match err with
  | Some err => Rejected (ApiError err)
  | None =>
      let events := items in
      if negb (Nat.eqb (List.length events) 0) then
        (* Find the latest incomplete log *)
        match array_find isIncomplete (rev events) with
        | Throw m => Uncaught m
        | Normal (Some latestIncompleteLogEvent) => Resolved latestIncompleteLogEvent
        | Normal None =>
            Rejected (JSError "No latest incomplete event found in the past 7 days.")
        end
      else Rejected (JSError "Found no events in the past 7 days.")
  end.

Definition listParams (currentTime : Z) (timeZone : string) : ListParams := {|
  list_calendarId := calendarId this;
  timeMin := currentTime - 1000 * 60 * 60 * 24 * 7;
  timeMax := currentTime;
  list_timeZone := timeZone;
  singleEvents := true;
  orderBy := "startTime"
|}.

Definition getLatestIncompleteLogEvent (currentTime : Z) (timeZone : string) : Async Event :=
  (* Get the latest incomplete work log *)
  '(err, items) <- events_list (listParams currentTime timeZone) ;;
  settle (latestIncompleteOf err items).

Definition inactivityPatch (latestIncompleteLogEvent : Event) (activityTime : Z) : PatchParams :=
  let concludedLogName := getLogName this (activityConcluded (strings this)) in
  let closedDueToInactivity := getLogName this (closedDueToInactivity (strings this)) in
  {|
    patch_calendarId := calendarId this;
    patch_eventId := ev_id latestIncompleteLogEvent;
    patch_resource := {|
      summary := Some concludedLogName;
      description :=
        Some (addToDescription host activityTime
                (concludedLogName +++ " " +++ closedDueToInactivity)
                (ev_description latestIncompleteLogEvent));
      start := None;
      end_ := None;
      extendedProperties := Some (completedProperty "true")
    |}
  |}.

Definition logEndDueToInactivity (latestIncompleteLogEvent : Event) (activityTime : Z)
  : Async unit :=
  let patchParams := inactivityPatch latestIncompleteLogEvent activityTime in
  '(err, response) <- events_patch patchParams ;;
  match err with
  | Some err => reject (ApiError err)
  | None => resolve tt
  end.

Definition activityPatch (latestIncompleteLogEvent : Event) (activityTime : Z)
    (timeZone activityDescription : string) : PatchParams :=
  let logName := getLogName this (activityInProgress (strings this)) in
  {|
    patch_calendarId := calendarId this;
    patch_eventId := ev_id latestIncompleteLogEvent;
    patch_resource := {|
      summary := Some logName;
      description :=
        Some (addToDescription host activityTime activityDescription
                (ev_description latestIncompleteLogEvent));
      start := None;
      end_ := Some {| dateTime := activityTime; timeZone := timeZone |};
      extendedProperties := Some (completedProperty "false")
    |}
  |}.

(** Log activity, for a call that passes its message (the default of the
    parameter is not modelled).  [fuel] bounds the depth of the recursion,
    which JavaScript does not bound. *)
Fixpoint logActivity (fuel : nat) (activityDescription : string) : Async unit :=
  match fuel with
  | O => settle OutOfFuel
  | S fuel =>
      '(activityTime, timeZone) <- getCurrentTime ;;
      (* Get the latest incomplete work log event *)
      latestIncompleteLogEvent <- getLatestIncompleteLogEvent activityTime timeZone ;;
      (* Check for inactivity *)
      let inactivityDetected := hasInactivity this latestIncompleteLogEvent activityTime in
      if inactivityDetected then
        (* End previous log first *)
        logEndDueToInactivity latestIncompleteLogEvent activityTime ;;
        (* Then start new, so we don't accidentally immediately end the newly started log *)
        logStart ;;
        (* Then log the activity after all *)
        logActivity fuel activityDescription
      else
        let patchParams :=
          activityPatch latestIncompleteLogEvent activityTime timeZone activityDescription in
        '(err, response) <- events_patch patchParams ;;
        match err with
        | Some err => reject (ApiError err)
        | None => resolve tt
        end
  end.

Definition concludePatch (latestIncompleteLogEvent : Event) (endTime : Z)
    (timeZone : string) : PatchParams :=
  let logName := getLogName this (activityConcluded (strings this)) in
  let concludedLogName := getLogName this (activityConcluded (strings this)) in
  {|
    patch_calendarId := calendarId this;
    patch_eventId := ev_id latestIncompleteLogEvent;
    patch_resource := {|
      summary := Some logName;
      description :=
        Some (addToDescription host endTime concludedLogName
                (ev_description latestIncompleteLogEvent));
      start := None;
      end_ := Some {| dateTime := endTime; timeZone := timeZone |};
      extendedProperties := Some (completedProperty "true")
    |}
  |}.

(** Conclude timelog. *)
Definition logEnd : Async unit :=
  '(endTime, timeZone) <- getCurrentTime ;;
  (* Get the latest incomplete work log event *)
  latestIncompleteLogEvent <- getLatestIncompleteLogEvent endTime timeZone ;;
  (* Check for inactivity *)
  let inactivityDetected := hasInactivity this latestIncompleteLogEvent endTime in
  if inactivityDetected then
    (* End the previous log *)
    logEndDueToInactivity latestIncompleteLogEvent endTime
  else
    let patchParams := concludePatch latestIncompleteLogEvent endTime timeZone in
    '(err, response) <- events_patch patchParams ;;
    match err with
    | Some err => reject (ApiError err)
    | None => resolve tt
    end.

End Operations.

(* ================================================================= *)
(** ** Construction of the logger *)

(** The value given for the option [strings]: absent, a value that is not an
    object of overrides, or an object whose entries, in the order of their
    keys, are strings or functions of the project name. *)
Inductive StringsOption : Type :=
| StringsAbsent
| StringsNull
| StringsArray
| StringsPrimitive
| StringsObject (entries : list (string * LogName)).

(** A JavaScript number as an option can hold it: the fraction a finite
    double is equal to, an infinity, or [NaN]. *)
Inductive JSDouble : Type :=
| Finite (numerator : Z) (denominator : positive)
| PlusInfinity
| MinusInfinity
| NotANumber.

(** [x > 0] *)
Definition isPositive (x : JSDouble) : bool :=
  match x with
  | Finite numerator _ => numerator >? 0
  | PlusInfinity => true
  | MinusInfinity | NotANumber => false
  end.

(** The properties the constructor reads from [options], [JSUndefined] where
    [options] has none.  [minutesUntilInactivity] is the number given, or
    [None] for a value whose [typeof] is not ['number']. *)
Record Options : Type := {
  opt_credentialsPath : JSVal;
  opt_tokenPath : JSVal;
  opt_calendar : JSVal;
  opt_minutesUntilInactivity : option JSDouble;
  opt_strings : StringsOption;
  opt_showLinks : JSVal
}.

(** The fields of the instance the constructor sets. *)
Record Settings : Type := {
  set_credentialsPath : string;
  set_tokenPath : string;
  set_calendarSummary : string;
  set_minutesUntilInactivity : JSDouble;
  set_strings : Strings;
  set_showLinks : option bool
}.

(** The three setters of the required options share their test:
    [typeof value === 'string' && value !== ''], or else an [Error] naming
    the option. *)
Definition setRequired (option : string) (value : JSVal) : Completion string :=
  match value with
  | JSStr s =>
      if negb (String.eqb s "") then Normal s
      else Throw ("✗ Missing or incorrect value for required option '"
                  +++ option +++ "'")
  | _ => Throw ("✗ Missing or incorrect value for required option '"
                +++ option +++ "'")
  end.

Definition setCredentialsPath (credentialsPath : JSVal) : Completion string :=
  setRequired "credentialsPath" credentialsPath.

Definition setTokenPath (tokenPath : JSVal) : Completion string :=
  setRequired "tokenPath" tokenPath.

Definition setCalendarSummary (calendarSummary : JSVal) : Completion string :=
  setRequired "calendar" calendarSummary.

(** [if (typeof minutes === 'number' && minutes > 0)], on the current value
    of the field. *)
Definition setMinutesUntilInactivity (minutes : option JSDouble) (current : JSDouble)
  : JSDouble :=
  match minutes with
  | Some number => if isPositive number then number else current
  | None => current
  end.

(** [this.strings[key] = value] *)
Definition assignString (s : Strings) (entry : string * LogName) : Strings :=
  let (key, value) := entry in
  if String.eqb key "activityStarted" then
    {| activityStarted := value;
       activityInProgress := activityInProgress s;
       activityConcluded := activityConcluded s;
       activityLogged := activityLogged s;
       closedDueToInactivity := closedDueToInactivity s |}
  else if String.eqb key "activityInProgress" then
    {| activityStarted := activityStarted s;
       activityInProgress := value;
       activityConcluded := activityConcluded s;
       activityLogged := activityLogged s;
       closedDueToInactivity := closedDueToInactivity s |}
  else if String.eqb key "activityConcluded" then
    {| activityStarted := activityStarted s;
       activityInProgress := activityInProgress s;
       activityConcluded := value;
       activityLogged := activityLogged s;
       closedDueToInactivity := closedDueToInactivity s |}
  else if String.eqb key "activityLogged" then
    {| activityStarted := activityStarted s;
       activityInProgress := activityInProgress s;
       activityConcluded := activityConcluded s;
       activityLogged := value;
       closedDueToInactivity := closedDueToInactivity s |}
  else if String.eqb key "closedDueToInactivity" then
    {| activityStarted := activityStarted s;
       activityInProgress := activityInProgress s;
       activityConcluded := activityConcluded s;
       activityLogged := activityLogged s;
       closedDueToInactivity := value |}
  else s.

(** [if (stringsOverrides !== null && typeof stringsOverrides === 'object'
    && !Array.isArray(stringsOverrides)) this.strings =
    Object.assign(this.strings, stringsOverrides)]; an absent option is
    [{}]. *)
Definition setStringsOverrides (stringsOverrides : StringsOption) (current : Strings)
  : Strings :=
  match stringsOverrides with
  | StringsObject entries => fold_left assignString entries current
  | StringsAbsent => fold_left assignString [] current
  | StringsNull | StringsArray | StringsPrimitive => current
  end.

(** [showLinks = false] in the destructuring, then
    [if (typeof showLinks === 'boolean') this.showLinks = showLinks]. *)
Definition setShowLinks (showLinks : JSVal) : option bool :=
  match showLinks with
  | JSUndefined => Some false
  | JSBool b => Some b
  | _ => None
  end.

(** [new GoogleCalendarLogger(options)] up to the start of the connection;
    [None] is an [options] that is [undefined] or [null]. *)
Definition construct (options : option Options) : Completion Settings :=
  match options with
  | None => Throw "TypeError: Cannot destructure 'options' as it is undefined."
  | Some o =>
      (* setDefaults *)
      let minutesUntilInactivity := Finite 10 1 in
      let strings := getDefaultStrings in
      bindC (setCredentialsPath (opt_credentialsPath o)) (fun credentialsPath =>
      bindC (setTokenPath (opt_tokenPath o)) (fun tokenPath =>
      bindC (setCalendarSummary (opt_calendar o)) (fun calendarSummary =>
      Normal {|
        set_credentialsPath := credentialsPath;
        set_tokenPath := tokenPath;
        set_calendarSummary := calendarSummary;
        set_minutesUntilInactivity :=
          setMinutesUntilInactivity (opt_minutesUntilInactivity o)
            minutesUntilInactivity;
        set_strings := setStringsOverrides (opt_strings o) strings;
        set_showLinks := setShowLinks (opt_showLinks o)
      |})))
  end.

(* ================================================================= *)
(** ** The calendar connection *)

(** An entry of the account's calendar list. *)
Record Calendar : Type := {
  cal_id : string;
  cal_summary : string
}.

(** The calendars of the authorized account and the number of requests sent
    to the API while connecting. *)
Record Account : Type := {
  calendars : list Calendar;
  acc_requests : nat
}.

(** The instance once [this.calendarId] is set. *)
Record Instance : Type := {
  inst_settings : Settings;
  inst_calendarId : string
}.

Definition connected (s : Settings) (calendar : Calendar) : Instance := {|
  inst_settings := s;
  inst_calendarId := cal_id calendar
|}.

(** The whole number a number is, when it is one. *)
Definition wholeNumber (x : JSDouble) : option Z :=
  match x with
  | Finite numerator denominator =>
      if numerator mod Zpos denominator =? 0
      then Some (numerator / Zpos denominator) else None
  | PlusInfinity | MinusInfinity | NotANumber => None
  end.

(** The instance as the log methods above take it, which is when its
    threshold is a whole number of minutes. *)
Definition loggerOf (i : Instance) : option Logger :=
  match wholeNumber (set_minutesUntilInactivity (inst_settings i)) with
  | Some minutes =>
      Some {| calendarSummary := set_calendarSummary (inst_settings i);
              calendarId := inst_calendarId i;
              minutesUntilInactivity := minutes;
              strings := set_strings (inst_settings i) |}
  | None => None
  end.

Section Connection.

Variable host : Host.

(** The identifier the server gives a calendar it creates. *)
Variable newCalendarId : list Calendar -> string.

(** [getOrCreateCalendar]: list the calendars, take the first whose summary
    is the logger's, or else insert one.  The callback of the insert reads
    [calenderSummary], a name no scope declares, before it resolves: a
    ReferenceError leaves the callback and the promise is never settled. *)
Definition getOrCreateCalendar (calendarSummary : string) (acc : Account)
  : Outcome Calendar * Account :=
  let listed := {| calendars := calendars acc; acc_requests := S (acc_requests acc) |} in
  match net host (acc_requests acc) with
  | Some err => (Rejected (ApiError err), listed)
  | None =>
      match find (fun item => String.eqb (cal_summary item) calendarSummary)
              (calendars acc) with
      | Some calendar =>
          (* If cal exists, return it *)
          (Resolved calendar, listed)
      | None =>
          (* If cal doesn't exist, create it *)
          match net host (S (acc_requests acc)) with
          | Some err =>
              (Rejected (ApiError err),
               {| calendars := calendars acc;
                  acc_requests := S (S (acc_requests acc)) |})
          | None =>
              let created := {| cal_id := newCalendarId (calendars acc);
                                cal_summary := calendarSummary |} in
              (Uncaught "ReferenceError: calenderSummary is not defined",
               {| calendars := calendars acc ++ [created];
                  acc_requests := S (S (acc_requests acc)) |})
          end
      end
  end.

(** [initCalendarConnection], given how the authorization ended: the
    promise [this.calendarConnection], with the instance it completes. *)
Definition initCalendarConnection {Auth} (auth : Outcome Auth) (s : Settings)
    (acc : Account) : Outcome Instance * Account :=
  match auth with
  | Resolved _ =>
      match getOrCreateCalendar (set_calendarSummary s) acc with
      | (Resolved calendar, acc') => (Resolved (connected s calendar), acc')
      | (Rejected err, acc') => (Rejected err, acc')
      | (Uncaught m, acc') => (Uncaught m, acc')
      | (OutOfFuel, acc') => (OutOfFuel, acc')
      end
  | Rejected err => (Rejected err, acc)
  | Uncaught m => (Uncaught m, acc)
  | OutOfFuel => (OutOfFuel, acc)
  end.

End Connection.

(* ================================================================= *)
(** ** Authorization *)

(** The OAuth2 client: what it was constructed with and the credentials set
    on it, if any. *)
Record OAuth2Client : Type := {
  auth_clientId : JSVal;
  auth_clientSecret : JSVal;
  auth_redirectUri : JSVal;
  auth_credentials : option JSVal
}.

(** The files of the disk: path and content, a later entry of a path
    superseded by an earlier one. *)
Definition Disk : Type := list (string * string).

Fixpoint fileAt (path : string) (disk : Disk) : option string :=
  match disk with
  | [] => None
  | (p, content) :: rest => if String.eqb p path then Some content else fileAt path rest
  end.

(** [value[0]] *)
Definition first (value : JSVal) : Completion JSVal :=
  match value with
  | JSUndefined => Throw "TypeError: Cannot read properties of undefined"
  | JSNull => Throw "TypeError: Cannot read properties of null"
  | JSArr [] => Normal JSUndefined
  | JSArr (x :: _) => Normal x
  | JSStr EmptyString => Normal JSUndefined
  | JSStr (String c _) => Normal (JSStr (String c EmptyString))
  | JSObj props => Normal (lookupProp "0" props)
  | JSBool _ | JSNum _ => Normal JSUndefined
  end.

(** A thrown exception or a normal value, as the outcome of an [async]
    function. *)
Definition thrown {A} (c : Completion A) : Outcome A :=
  match c with
  | Normal a => Resolved a
  | Throw m => Rejected (JSError m)
  end.

Section Authorization.

(** [JSON.parse] and [JSON.stringify]. *)
Variable parse : string -> Completion JSVal.
Variable stringify : JSVal -> string.

(** The error [fs.readFile] rejects with for a path that has no file. *)
Variable noSuchFile : string -> string.

(** The fate of [fs.writeFile] on a path: an error, or [None] when the file
    is written. *)
Variable writeError : string -> option string.

(** The code the user enters at the prompt, and what the client's
    [getToken] hands its callback for a code: an error or a token. *)
Variable enteredCode : string.
Variable getToken : string -> string + JSVal.

(** [fs.readFile(path)] followed by [JSON.parse]. *)
Definition readJSON (path : string) (disk : Disk) : Outcome JSVal :=
  match fileAt path disk with
  | None => Rejected (ApiError (noSuchFile path))
  | Some content => thrown (parse content)
  end.

(** [oAuth2Client.setCredentials(token)] *)
Definition setCredentials (client : OAuth2Client) (token : JSVal) : OAuth2Client := {|
  auth_clientId := auth_clientId client;
  auth_clientSecret := auth_clientSecret client;
  auth_redirectUri := auth_redirectUri client;
  auth_credentials := Some token
|}.

(** Get and store new token after prompting for user authorization, and then
    resolve with the OAuth2 object. *)
Definition getAccessToken (oAuth2Client : OAuth2Client) (tokenPath : string)
    (disk : Disk) : Outcome OAuth2Client * Disk :=
  match getToken enteredCode with
  | inl err => (Rejected (ApiError err), disk)
  | inr token =>
      let oAuth2Client := setCredentials oAuth2Client token in
      (* Store the token to disk for later program executions *)
      match writeError tokenPath with
      | Some err => (Rejected (ApiError err), disk)
      | None => (Resolved oAuth2Client, (tokenPath, stringify token) :: disk)
      end
  end.

(** [new google.auth.OAuth2(client_id, client_secret, redirect_uris[0])] from
    the parsed credentials:
    [const { client_secret, client_id, redirect_uris } = credentials.installed] *)
Definition clientOf (credentials : JSVal) : Completion OAuth2Client :=
  bindC (getProp credentials "installed") (fun installed =>
  bindC (getProp installed "client_secret") (fun client_secret =>
  bindC (getProp installed "client_id") (fun client_id =>
  bindC (getProp installed "redirect_uris") (fun redirect_uris =>
  bindC (first redirect_uris) (fun redirect_uri =>
  Normal {| auth_clientId := client_id;
            auth_clientSecret := client_secret;
            auth_redirectUri := redirect_uri;
            auth_credentials := None |}))))).

(** Create an OAuth2 client with the given credentials.  The promise
    resolves with the client when a stored token is found; after the flow
    that obtains a new token the function ends without a [return], and the
    promise resolves with [undefined] ([None]). *)
Definition authorize (credentialsPath tokenPath : string) (disk : Disk)
  : Outcome (option OAuth2Client) * Disk :=
  (* Load client secrets from a local file. *)
  match readJSON credentialsPath disk with
  | Resolved credentials =>
      match clientOf credentials with
      | Throw m => (Rejected (JSError m), disk)
      | Normal oAuth2Client =>
          (* Check if we have previously stored a token. *)
          match readJSON tokenPath disk with
          | Resolved token =>
              (Resolved (Some (setCredentials oAuth2Client token)), disk)
          | _ =>
              match getAccessToken oAuth2Client tokenPath disk with
              | (Resolved _, disk') => (Resolved None, disk')
              | (Rejected err, disk') => (Rejected err, disk')
              | (Uncaught m, disk') => (Uncaught m, disk')
              | (OutOfFuel, disk') => (OutOfFuel, disk')
              end
          end
      end
  | Rejected err => (Rejected err, disk)
  | Uncaught m => (Uncaught m, disk)
  | OutOfFuel => (OutOfFuel, disk)
  end.

End Authorization.

(* ================================================================= *)
(** ** Vocabulary of the specification *)

(** The session marker of an event: the private extended property
    [completed], when the event carries one as a string. *)
Definition markerOf (e : Event) : option string :=
  match ev_extendedProperties e with
  | JSObj props =>
      match lookupProp "private" props with
      | JSObj private =>
          match lookupProp "completed" private with
          | JSStr s => Some s
          | _ => None
          end
      | _ => None
      end
  | _ => None
  end.

(** An event is open-marked when its marker is the string ['false']. *)
Definition openMarked (e : Event) : bool :=
  match markerOf e with
  | Some s => String.eqb s "false"
  | None => false
  end.

(** A list of events is in ascending order of start time. *)
Fixpoint ascendingByStart (l : list Event) : bool :=
  match l with
  | [] => true
  | x :: rest =>
      match rest with
      | [] => true
      | y :: _ => (startOf x <=? startOf y) && ascendingByStart rest
      end
  end.

Definition isLF (c : ascii) : bool := Ascii.eqb c (ascii_of_nat 10).

(** The text has no line feed in it. *)
Fixpoint noNewline (s : string) : bool :=
  match s with
  | EmptyString => true
  | String c rest => negb (isLF c) && noNewline rest
  end.

(** The lines of a text: its pieces between line feeds. *)
Fixpoint lines (s : string) : list string :=
  match s with
  | EmptyString => [""]
  | String c rest =>
      if isLF c then "" :: lines rest
      else match lines rest with
           | [] => [String c ""]
           | l :: ls => String c l :: ls
           end
  end.

Definition lastLine (s : string) : string := last (lines s) "".

(** Reading a line of the description back: what follows its time and dash,
    [HH:MM – ], which is ten bytes of UTF-8. *)
Definition messageOfLine (line : string) : string :=
  substring 10 (String.length line - 10) line.

Definition digit (n : Z) : ascii := ascii_of_nat (48 + Z.to_nat n).

(** A number below one hundred written with two decimal digits. *)
Definition twoDigits (n : Z) : string :=
  String (digit (n / 10)) (String (digit (n mod 10)) "").

(** The line the specification gives an activity: [HH:MM – message]. *)
Definition activityLine (host : Host) (date : Z) (message : string) : string :=
  twoDigits (getHours host date) +++ ":" +++ twoDigits (getMinutes host date)
  +++ " – " +++ message.

(** The event's last activity when its timestamps are well formed: [updated],
    or [created] when the event has no [updated]. *)
Definition lastActivityOf (e : Event) : option Z :=
  match ev_updated e with
  | Some (Instant u) => Some u
  | Some (Garbled _) => None
  | None =>
      match ev_created e with
      | Some (Instant c) => Some c
      | _ => None
      end
  end.

(** The [k]-th clock reading from now on. *)
Definition reading (host : Host) (w : World) (k : nat) : Z :=
  clock host (k + ticks w)%nat.

(** The world after [dt] further clock readings and [dr] further requests,
    the calendar holding [l]. *)
Definition advance (dt dr : nat) (l : list Event) (w : World) : World :=
  {| events := l; ticks := (dt + ticks w)%nat; requests := (dr + requests w)%nat |}.

(** The lookback of a listing: seven days in milliseconds. *)
Definition lookback : Z := 1000 * 60 * 60 * 24 * 7.

(** The events the resolver is shown when it asks at [currentTime]. *)
Definition shown (this : Logger) (host : Host) (currentTime : Z) (l : list Event)
  : list Event :=
  listing (listParams this currentTime (tz_guess host)) l.

(** No two events of the list have the same identifier. *)
Fixpoint distinctIds (l : list Event) : bool :=
  match l with
  | [] => true
  | e :: rest =>
      forallb (fun x => negb (Nat.eqb (ev_id x) (ev_id e))) rest && distinctIds rest
  end.

(** Lines joined by line feeds. *)
Fixpoint joinLines (ls : list string) : string :=
  match ls with
  | [] => ""
  | l :: rest =>
      match rest with
      | [] => l
      | _ :: _ => l +++ LF +++ joinLines rest
      end
  end.

(** Every open-marked event of the list starts at [t] or before. *)
Definition noOpenAfter (t : Z) (l : list Event) : bool :=
  forallb (fun y => negb (openMarked y) || (startOf y <=? t)) l.

(** The event [logStart] creates at [startTime], as the server returns it. *)
Definition startedEvent (host : Host) (this : Logger) (id : nat)
    (startTime stamp : Z) : Event :=
  newEvent id (insert_resource (startParams host this startTime (tz_guess host)))
    {| dateTime := startTime; timeZone := tz_guess host |}
    {| dateTime := startTime + 1000; timeZone := tz_guess host |}
    stamp.

(** [l'] keeps the events of [l]: in their places, each with the
    identifier, the start and the creation stamp it had; further events may
    follow them. *)
Definition keepsEvents (l l' : list Event) : Prop :=
  exists kept more,
    l' = kept ++ more
    /\ map ev_id kept = map ev_id l
    /\ map ev_start kept = map ev_start l
    /\ map ev_created kept = map ev_created l.

(** [l'] has every event of [l] that is not open-marked, in its place and
    unchanged. *)
Definition closedUntouched (l l' : list Event) : Prop :=
  forall i e, nth_error l i = Some e -> openMarked e = false ->
              nth_error l' i = Some e.

(** The changes the log methods make to a calendar: a patch, sparing the
    start, of an open-marked event it holds, or the insertion of an event
    with an identifier of its own. *)
Inductive evolves : list Event -> list Event -> Prop :=
| evolves_done (l : list Event) : evolves l l
| evolves_patch (l l' : list Event) (p : PatchParams) (stamp : Z) (old : Event) :
    In old l ->
    openMarked old = true ->
    patch_eventId p = ev_id old ->
    start (patch_resource p) = None ->
    evolves (map (patchWhere p stamp) l) l' ->
    evolves l l'
| evolves_insert (l l' : list Event) (e : Event) :
    (forall y, In y l -> ev_id y <> ev_id e) ->
    evolves (l ++ [e]) l' ->
    evolves l l'.

(** No event of the list is in the window of a listing asked at [t]: each
    ended a week or more before [t], or starts at [t] or later. *)
Definition noneInWindow (t : Z) (l : list Event) : bool :=
  forallb (fun e => (endOf e <=? t - lookback) || (t <=? startOf e)) l.

(** Reporting the messages one after the other. *)
Fixpoint logActivities (host : Host) (this : Logger) (fuel : nat)
    (messages : list string) : Async unit :=
  match messages with
  | [] => resolve tt
  | m :: rest =>
      await (logActivity host this fuel m)
        (fun _ => logActivities host this fuel rest)
  end.

(** The lines such reports add when the first reads the clock at its [k]-th
    next reading and each report takes two readings. *)
Fixpoint reportLines (host : Host) (w : World) (k : nat) (messages : list string)
  : list string :=
  match messages with
  | [] => []
  | m :: rest =>
      activityLine host (reading host w k) m :: reportLines host w (2 + k) rest
  end.

(** [n] reports from the [k]-th next reading and request on go unbroken for
    an event that starts at [startTime], was last stamped at [stamp] and ends
    at [endTime]: each has its two requests served, comes after the start,
    within the lookback of the end the report before it set, and within the
    threshold of the stamp the report before it left. *)
Fixpoint unbroken (host : Host) (this : Logger) (w : World) (startTime : Z)
    (k : nat) (stamp endTime : Z) (n : nat) : bool :=
  match n with
  | O => true
  | S n' =>
      match net host (k + requests w), net host (S k + requests w) with
      | None, None =>
          (startTime <? reading host w k)
          && (reading host w k - lookback <? endTime)
          && (reading host w k - stamp <=? msUntilInactivity this)
          && unbroken host this w startTime (2 + k)
               (reading host w (S k)) (reading host w k) n'
      | _, _ => false
      end
  end.

(** The value is a string that is not empty. *)
Definition nonEmptyString (v : JSVal) : bool :=
  match v with
  | JSStr s => negb (String.eqb s "")
  | _ => false
  end.

(** The error of the constructor for a required option. *)
Definition missingOption (option : string) : string :=
  "✗ Missing or incorrect value for required option '" +++ option +++ "'".

(** The value the last entry for [key] gives, if there is one. *)
Fixpoint lastOverride (key : string) (entries : list (string * LogName))
  : option LogName :=
  match entries with
  | [] => None
  | (k, v) :: rest =>
      match lastOverride key rest with
      | Some later => Some later
      | None => if String.eqb k key then Some v else None
      end
  end.

Definition overridden (key : string) (entries : list (string * LogName))
    (default : LogName) : LogName :=
  match lastOverride key entries with
  | Some v => v
  | None => default
  end.

(* ================================================================= *)
(** ** A sample run *)

Module Sample.

(** A logger with the default strings and the default ten minutes. *)
Definition logger : Logger := {|
  calendarSummary := "proj";
  calendarId := "cal-1";
  minutesUntilInactivity := 10;
  strings := getDefaultStrings
|}.

(** A host one hour east of UTC, whose network serves every request, with
    the given clock. *)
Definition hostWith (readings : nat -> Z) : Host := {|
  clock := readings;
  getTimezoneOffset := fun _ => -60;
  tz_guess := "Europe/Amsterdam";
  net := fun _ => None
|}.

(** A clock read once a minute. *)
Definition steady : Host :=
  hostWith (fun n => 1700000000000 + 60000 * Z.of_nat n).

(** A clock read once a second, with a pause of eleven minutes after the
    second reading. *)
Definition paused : Host :=
  hostWith (fun n => 1700000000000 + 1000 * Z.of_nat n
                     + (if (n <? 2)%nat then 0 else 660000)).

Definition emptyCalendar : World := {| events := []; ticks := 0; requests := 0 |}.

(** The event of a log started at the first reading of [paused]. *)
Definition stale : Event :=
  startedEvent paused logger 1 1700000000000 1700000001000.

(** The calendar after that start. *)
Definition afterStart : World := {| events := [stale]; ticks := 2; requests := 1 |}.

Definition withMarker (id : nat) (startTime : Z) (marker : JSVal) : Event := {|
  ev_id := id;
  ev_summary := Some "Working on proj";
  ev_description := Some "09:00 – Started working on proj";
  ev_start := {| dateTime := startTime; timeZone := "Europe/Amsterdam" |};
  ev_end := {| dateTime := startTime + 1000; timeZone := "Europe/Amsterdam" |};
  ev_updated := Some (Instant (startTime + 500));
  ev_created := Some (Instant (startTime + 500));
  ev_extendedProperties := marker
|}.

(** Three events in ascending order of start, the first two open-marked. *)
Definition twoOpen : list Event :=
  [withMarker 1 1000 (completedProperty "false");
   withMarker 2 2000 (completedProperty "false");
   withMarker 3 3000 (completedProperty "true")].

Definition twoOpenCalendar : World :=
  {| events := twoOpen; ticks := 0; requests := 0 |}.

(** An open-marked event whose timestamps are not dates. *)
Definition garbled : Event := {|
  ev_id := 1;
  ev_summary := Some "Working on proj";
  ev_description := Some "09:00 – Started working on proj";
  ev_start := {| dateTime := 1699999000000; timeZone := "Europe/Amsterdam" |};
  ev_end := {| dateTime := 1699999001000; timeZone := "Europe/Amsterdam" |};
  ev_updated := Some (Garbled "yesterday-ish");
  ev_created := Some (Garbled "n/a");
  ev_extendedProperties := completedProperty "false"
|}.

Definition garbledCalendar : World :=
  {| events := [garbled]; ticks := 0; requests := 0 |}.

(** A calendar whose only event is closed. *)
Definition closedCalendar : World :=
  {| events := [withMarker 1 1699999000000 (completedProperty "true")];
     ticks := 0; requests := 0 |}.

End Sample.

(* ================================================================= *)
(** ** Further samples *)

Module Demo.

(** A host whose every request fails. *)
Definition offline : Host := {|
  clock := clock Sample.steady;
  getTimezoneOffset := fun _ => -60;
  tz_guess := "Europe/Amsterdam";
  net := fun _ => Some "ECONNRESET"
|}.

(** The host [base] with the request of index [k] failing. *)
Definition failingAt (base : Host) (k : nat) : Host := {|
  clock := clock base;
  getTimezoneOffset := getTimezoneOffset base;
  tz_guess := tz_guess base;
  net := fun i => if Nat.eqb i k then Some "503" else None
|}.

(** The options of a first use, with a threshold of half a minute and one
    title overridden twice. *)
Definition options : Options := {|
  opt_credentialsPath := JSStr "gcl/credentials.json";
  opt_tokenPath := JSStr "gcl/token.json";
  opt_calendar := JSStr "proj";
  opt_minutesUntilInactivity := Some (Finite 1 2);
  opt_strings := StringsObject [("activityStarted", Literal "Go");
                                ("unknown", Literal "ignored");
                                ("activityStarted", Literal "Begin")];
  opt_showLinks := JSUndefined
|}.

Definition settings : Settings := {|
  set_credentialsPath := "gcl/credentials.json";
  set_tokenPath := "gcl/token.json";
  set_calendarSummary := "proj";
  set_minutesUntilInactivity := Finite 1 2;
  set_strings := setStringsOverrides (opt_strings options) getDefaultStrings;
  set_showLinks := Some false
|}.

(** The same options and settings with another threshold. *)
Definition optionsWith (minutes : option JSDouble) : Options := {|
  opt_credentialsPath := opt_credentialsPath options;
  opt_tokenPath := opt_tokenPath options;
  opt_calendar := opt_calendar options;
  opt_minutesUntilInactivity := minutes;
  opt_strings := opt_strings options;
  opt_showLinks := opt_showLinks options
|}.

Definition settingsWith (minutes : JSDouble) : Settings := {|
  set_credentialsPath := set_credentialsPath settings;
  set_tokenPath := set_tokenPath settings;
  set_calendarSummary := set_calendarSummary settings;
  set_minutesUntilInactivity := minutes;
  set_strings := set_strings settings;
  set_showLinks := set_showLinks settings
|}.

Definition calendarNamed (id summary : string) : Calendar :=
  {| cal_id := id; cal_summary := summary |}.

(** An account with two calendars of the logger's title. *)
Definition account : Account := {|
  calendars := [calendarNamed "c1" "holidays"; calendarNamed "c2" "proj";
                calendarNamed "c3" "proj"];
  acc_requests := 0
|}.

Definition freshAccount : Account :=
  {| calendars := [calendarNamed "c1" "holidays"]; acc_requests := 0 |}.

Definition newId (l : list Calendar) : string := "created".

(** A disk with the credentials of an installed application, and the
    [JSON.parse] and [JSON.stringify] of its two files. *)
Definition credentialsJSON : JSVal :=
  JSObj [("installed",
          JSObj [("client_id", JSStr "id-1");
                 ("client_secret", JSStr "s3cret");
                 ("redirect_uris", JSArr [JSStr "urn:ietf:wg:oauth:2.0:oob"])])].

Definition tokenJSON : JSVal := JSObj [("access_token", JSStr "ya29")].

Definition disk : Disk := [("gcl/credentials.json", "CREDENTIALS")].

Definition parse (text : string) : Completion JSVal :=
  if String.eqb text "CREDENTIALS" then Normal credentialsJSON
  else if String.eqb text "TOKEN" then Normal tokenJSON
  else Throw "SyntaxError: Unexpected token".

Definition stringify (v : JSVal) : string := "TOKEN".

Definition noSuchFile (path : string) : string := "ENOENT: " +++ path.

Definition client : OAuth2Client := {|
  auth_clientId := JSStr "id-1";
  auth_clientSecret := JSStr "s3cret";
  auth_redirectUri := JSStr "urn:ietf:wg:oauth:2.0:oob";
  auth_credentials := None
|}.

End Demo.

(* ================================================================= *)
(** ** A sample with a clock ahead of the server's *)

Module Skew.

(** The process reads its own clock at the even readings and the server
    stamps at the odd ones; the process's clock is seventy seconds ahead. *)
Definition host : Host :=
  Sample.hostWith
    (fun n => 1700000000000 + 1000 * Z.of_nat n
              + (if Nat.even n then 70000 else 0)).

(** A logger with a threshold of one minute. *)
Definition logger : Logger := {|
  calendarSummary := "proj";
  calendarId := "cal-1";
  minutesUntilInactivity := 1;
  strings := getDefaultStrings
|}.

(** An open-marked event started ten minutes before the first reading and
    stamped half a second after its start. *)
Definition old : Event :=
  Sample.withMarker 1 1699999400000 (completedProperty "false").

Definition calendar : World := {| events := [old]; ticks := 0; requests := 0 |}.

End Skew.

(** Closes a goal over the sample by evaluation. *)
Ltac evaluated := vm_compute; first [reflexivity | discriminate | lia].

(* ================================================================= *)
(** ** The inactivity predicate *)

Section InactivityPolicy.

Variable this : Logger.

Lemma timeOf_lastActivity (e : Event) (last : Z) :
  lastActivityOf e = Some last ->
  timeOf (orElse (ev_updated e) (ev_created e)) = Num last.
Proof.
  unfold lastActivityOf, orElse, timeOf.
  destruct (ev_updated e) as [[u | raw] | ]; try discriminate.
  - intros H; inversion H; reflexivity.
  - destruct (ev_created e) as [[c | raw] | ]; try discriminate.
    intros H; inversion H; reflexivity.
Qed.



(** C4, as the code has it: when the timestamp [hasInactivity] reads
    ([updated], or [created] when [updated] is absent or empty) cannot be
    parsed, no error is raised; the last activity is [NaN], the comparison
    with it is false, and the answer is "not lapsed". *)
Theorem hasInactivity_unparsable_is_false (e : Event) (now : Z) :
  timeOf (orElse (ev_updated e) (ev_created e)) = NaN ->
  hasInactivity this e now = false.
Proof.
  intros H. unfold hasInactivity. rewrite H. reflexivity.
Qed.

End InactivityPolicy.

(* ================================================================= *)
(** ** The description log *)

Section DescriptionLog.

Variable host : Host.

Lemma pad2_below_sixty (k : nat) :
  (k < 60)%nat -> pad2 (Z.of_nat k) = twoDigits (Z.of_nat k).
Proof.
  intros Hk.
  do 60 (destruct k as [| k]; [reflexivity | ]).
  lia.
Qed.

Lemma pad2_twoDigits (n : Z) : 0 <= n < 60 -> pad2 n = twoDigits n.
Proof.
  intros Hn. rewrite <- (Z2Nat.id n) by lia.
  apply pad2_below_sixty. lia.
Qed.

Lemma getHours_range (date : Z) : 0 <= getHours host date < 24.
Proof. unfold getHours. apply Z.mod_pos_bound. lia. Qed.

Lemma getMinutes_range (date : Z) : 0 <= getMinutes host date < 60.
Proof. unfold getMinutes. apply Z.mod_pos_bound. lia. Qed.

Lemma append_assoc (a b c : string) : (a +++ b) +++ c = a +++ b +++ c.
Proof. induction a as [| x a IH]; simpl; [reflexivity | now rewrite IH]. Qed.

Lemma lines_not_nil (s : string) : lines s <> [].
Proof.
  induction s as [| c s IH]; simpl; [discriminate | ].
  destruct (isLF c); [discriminate | ].
  destruct (lines s); [contradiction | discriminate].
Qed.

(** Splitting commutes with joining two texts by a line feed. *)
Lemma lines_joined (a b : string) : lines (a +++ LF +++ b) = lines a ++ lines b.
Proof.
  induction a as [| c a IH].
  - reflexivity.
  - change (lines (String c (a +++ LF +++ b)) = lines (String c a) ++ lines b).
    cbn [lines]. rewrite IH. destruct (isLF c); [reflexivity | ].
    pose proof (lines_not_nil a) as Hne.
    destruct (lines a) as [| l ls]; [contradiction | reflexivity].
Qed.

Lemma lines_single (m : string) : noNewline m = true -> lines m = [m].
Proof.
  induction m as [| c m IH]; simpl; [reflexivity | ].
  intros H. apply andb_prop in H as [Hc Hm].
  destruct (isLF c); [discriminate | ].
  now rewrite (IH Hm).
Qed.

Lemma noNewline_append (a b : string) :
  noNewline a = true -> noNewline b = true -> noNewline (a +++ b) = true.
Proof.
  induction a as [| c a IH]; simpl; [auto | ].
  intros H Hb. apply andb_prop in H as [Hc Ha].
  now rewrite Hc, (IH Ha Hb).
Qed.

Lemma substring_whole (s : string) : substring 0 (String.length s) s = s.
Proof. induction s as [| c s IH]; simpl; [reflexivity | now rewrite IH]. Qed.

(** The code's line is the specification's line. *)
Lemma addToDescription_line (date : Z) (m : string) (d : option string) :
  addToDescription host date m d =
  (match d with
   | None | Some "" => ""
   | Some prior => prior +++ LF
   end) +++ activityLine host date m.
Proof.
  unfold addToDescription, activityLine.
  rewrite (pad2_twoDigits (getMinutes host date)) by apply getMinutes_range.
  rewrite (pad2_twoDigits (getHours host date))
    by (pose proof (getHours_range date); lia).
  destruct d as [[| c prior] | ]; reflexivity.
Qed.

Lemma twoDigits_noNewline (n : Z) : 0 <= n < 60 -> noNewline (twoDigits n) = true.
Proof.
  intros Hn. rewrite <- (Z2Nat.id n) by lia.
  assert (Hk : (Z.to_nat n < 60)%nat) by lia.
  revert Hk. generalize (Z.to_nat n) as k. intros k Hk.
  do 60 (destruct k as [| k]; [reflexivity | ]).
  lia.
Qed.

Lemma activityLine_noNewline (date : Z) (m : string) :
  noNewline m = true -> noNewline (activityLine host date m) = true.
Proof.
  intros Hm. unfold activityLine.
  apply noNewline_append.
  - apply twoDigits_noNewline. pose proof (getHours_range date). lia.
  - apply (noNewline_append ":"); [reflexivity | ].
    apply noNewline_append.
    + apply twoDigits_noNewline, getMinutes_range.
    + apply (noNewline_append " – "); [reflexivity | exact Hm].
Qed.

Lemma messageOfLine_activityLine (date : Z) (m : string) :
  messageOfLine (activityLine host date m) = m.
Proof.
  unfold messageOfLine, activityLine, twoDigits. simpl.
  rewrite Nat.sub_0_r. apply substring_whole.
Qed.

(** C8: [addToDescription] keeps the prior description as a prefix, followed
    by one line feed when it is not empty, and appends one line
    [HH:MM – message] with two-digit hours and minutes; the lines of the
    result are the prior lines in their order followed by the new one, and
    the message read back from the last line is the message given. *)
Theorem addToDescription_appends_one_line (date : Z) (m d : string) :
  noNewline m = true ->
  let result := addToDescription host date m (Some d) in
  let line := twoDigits (getHours host date) +++ ":"
              +++ twoDigits (getMinutes host date) +++ " – " +++ m in
  result = (if String.eqb d "" then "" else d +++ LF) +++ line
  /\ lines result = (if String.eqb d "" then [] else lines d) ++ [line]
  /\ lastLine result = line
  /\ messageOfLine (lastLine result) = m
  /\ 0 <= getHours host date < 24
  /\ 0 <= getMinutes host date < 60
  /\ addToDescription host date m None = line.
Proof.
  intros Hm result line.
  assert (Hline : line = activityLine host date m) by reflexivity.
  assert (Hres : result = (if String.eqb d "" then "" else d +++ LF) +++ line).
  { unfold result. rewrite addToDescription_line, Hline.
    destruct d as [| c d]; reflexivity. }
  assert (Hlines : lines result = (if String.eqb d "" then [] else lines d) ++ [line]).
  { rewrite Hres. destruct (String.eqb d "").
    - change ("" +++ line) with line. cbn [app].
      rewrite Hline. apply lines_single, activityLine_noNewline, Hm.
    - rewrite append_assoc, lines_joined. f_equal.
      rewrite Hline. apply lines_single, activityLine_noNewline, Hm. }
  assert (Hlast : lastLine result = line).
  { unfold lastLine. rewrite Hlines. apply last_last. }
  repeat split; try assumption.
  - rewrite Hlast, Hline. apply messageOfLine_activityLine.
  - apply getHours_range.
  - apply getHours_range.
  - apply getMinutes_range.
  - apply getMinutes_range.
  - rewrite addToDescription_line. reflexivity.
Qed.

End DescriptionLog.

(* ================================================================= *)
(** ** The scan for the latest incomplete event *)

Section Resolver.

(** The callback never throws, and its result is truthy exactly on the
    open-marked events. *)
Lemma isIncomplete_openMarked (event : Event) :
  exists v, isIncomplete event = Normal v /\ truthy v = openMarked event.
Proof.
  unfold isIncomplete, openMarked, markerOf.
  destruct (ev_extendedProperties event) as [ | | b | n | s | items | props];
    cbn [getProp bindC]; try (eexists; split; reflexivity).
  destruct (lookupProp "private" props) as [ | | b | n | s | items | private];
    cbn [getProp bindC]; try (eexists; split; reflexivity).
  destruct (lookupProp "completed" private) as [ | | b | n | s | items | o];
    cbn [getProp bindC strictEqualsString truthy];
    eexists; split; reflexivity.
Qed.

Lemma array_find_isIncomplete (l : list Event) :
  array_find isIncomplete l = Normal (find openMarked l).
Proof.
  induction l as [| x l IH]; [reflexivity | ].
  cbn [array_find find].
  destruct (isIncomplete_openMarked x) as (v & Hv & Ht).
  rewrite Hv, Ht. destruct (openMarked x); [reflexivity | exact IH].
Qed.

Lemma find_skips (p : Event -> bool) (a b : list Event) :
  forallb (fun x => negb (p x)) a = true -> find p (a ++ b) = find p b.
Proof.
  induction a as [| x a IH]; [reflexivity | ].
  cbn [forallb app find]. intros H. apply andb_prop in H as [Hx Ha].
  destruct (p x); [discriminate | auto].
Qed.

Lemma forallb_rev (p : Event -> bool) (l : list Event) :
  forallb p (rev l) = forallb p l.
Proof.
  induction l as [| x l IH]; [reflexivity | ].
  cbn [rev forallb]. rewrite forallb_app, IH. cbn [forallb].
  rewrite andb_true_r. apply andb_comm.
Qed.

(** Scanning the reversed list finds the last open-marked event. *)
Lemma find_rev_last_open (before after : list Event) (e : Event) :
  openMarked e = true ->
  forallb (fun x => negb (openMarked x)) after = true ->
  find openMarked (rev (before ++ e :: after)) = Some e.
Proof.
  intros He Hafter.
  rewrite rev_app_distr. cbn [rev]. rewrite <- app_assoc.
  rewrite find_skips by (rewrite forallb_rev; exact Hafter).
  cbn [app find]. now rewrite He.
Qed.

Lemma find_none_closed (l : list Event) :
  forallb (fun x => negb (openMarked x)) l = true -> find openMarked l = None.
Proof.
  induction l as [| x l IH]; [reflexivity | ].
  cbn [forallb find]. intros H. apply andb_prop in H as [Hx Hl].
  destruct (openMarked x); [discriminate | auto].
Qed.

(** A list with an open-marked event splits at its last one. *)
Lemma last_open_split (l : list Event) :
  (1 <= List.length (filter openMarked l))%nat ->
  exists before e after,
    l = before ++ e :: after
    /\ openMarked e = true
    /\ forallb (fun x => negb (openMarked x)) after = true.
Proof.
  induction l as [| x l IH]; cbn [filter]; [cbn; lia | ].
  intros H.
  destruct (filter openMarked l) as [| y ys] eqn:Hf.
  - destruct (openMarked x) eqn:Hx; [ | cbn in H; lia].
    exists [], x, l. repeat split; [exact Hx | ].
    clear - Hf. induction l as [| z l IH]; [reflexivity | ].
    cbn [filter] in Hf. cbn [forallb].
    destruct (openMarked z); [discriminate | ]. cbn. auto.
  - destruct IH as (before & e & after & Hl & He & Hafter); [cbn; lia | ].
    exists (x :: before), e, after. subst l. repeat split; assumption.
Qed.

Lemma ascending_head_least (x : Event) (l : list Event) :
  ascendingByStart (x :: l) = true ->
  ascendingByStart l = true /\ forall y, In y l -> startOf x <= startOf y.
Proof.
  revert x. induction l as [| z l IH]; intros x H.
  - split; [reflexivity | intros y []].
  - cbn [ascendingByStart] in H. apply andb_prop in H as [Hxz Hrest].
    split; [exact Hrest | ].
    apply Z.leb_le in Hxz.
    destruct (IH z Hrest) as [_ Hz].
    intros y [<- | Hy]; [exact Hxz | ].
    specialize (Hz y Hy). lia.
Qed.

Lemma ascending_before_le (before after : list Event) (e : Event) :
  ascendingByStart (before ++ e :: after) = true ->
  forall x, In x before -> startOf x <= startOf e.
Proof.
  induction before as [| b before IH]; intros H x Hx; [destruct Hx | ].
  cbn [app] in H. apply ascending_head_least in H as [Hrest Hb].
  destruct Hx as [<- | Hx].
  - apply Hb. apply in_or_app. right. left. reflexivity.
  - exact (IH Hrest x Hx).
Qed.

Lemma latestIncompleteOf_split (before after : list Event) (e : Event) :
  openMarked e = true ->
  forallb (fun x => negb (openMarked x)) after = true ->
  latestIncompleteOf None (before ++ e :: after) = Resolved e.
Proof.
  intros He Hafter. unfold latestIncompleteOf.
  rewrite array_find_isIncomplete, (find_rev_last_open before after e He Hafter).
  rewrite length_app. cbn [List.length].
  replace (List.length before + S (List.length after))%nat
    with (S (List.length before + List.length after)) by lia.
  reflexivity.
Qed.

Lemma latestIncompleteOf_none_open (items : list Event) :
  forallb (fun x => negb (openMarked x)) items = true ->
  latestIncompleteOf None items =
  Rejected (JSError (match items with
                     | [] => "Found no events in the past 7 days."
                     | _ :: _ => "No latest incomplete event found in the past 7 days."
                     end)).
Proof.
  intros H. unfold latestIncompleteOf.
  destruct items as [| x items]; [reflexivity | ].
  rewrite array_find_isIncomplete.
  rewrite find_none_closed by (rewrite forallb_rev; exact H).
  reflexivity.
Qed.

Lemma latestIncompleteOf_resolved (err : option string) (items : list Event) (e : Event) :
  latestIncompleteOf err items = Resolved e ->
  err = None /\ In e items /\ openMarked e = true.
Proof.
  unfold latestIncompleteOf. destruct err as [err | ]; [discriminate | ].
  destruct (negb (Nat.eqb (List.length items) 0)); [ | discriminate].
  rewrite array_find_isIncomplete.
  destruct (find openMarked (rev items)) as [x | ] eqn:Hf; [ | discriminate].
  intros H. inversion H; subst x.
  apply find_some in Hf as [Hin Hopen].
  repeat split; [ | exact Hopen]. now apply in_rev.
Qed.

Lemma openMarked_marker (e : Event) :
  openMarked e = true <-> markerOf e = Some "false".
Proof.
  unfold openMarked. destruct (markerOf e) as [s | ].
  - split.
    + intros H. apply String.eqb_eq in H. now subst.
    + intros H. inversion H. reflexivity.
  - split; discriminate.
Qed.

End Resolver.

(* ================================================================= *)
(** ** The calendar's listing and patching *)

Section Store.

Lemma In_insertByStart (e y : Event) (l : list Event) :
  In y (insertByStart e l) <-> y = e \/ In y l.
Proof.
  induction l as [| x l IH]; cbn [insertByStart].
  - cbn. intuition congruence.
  - destruct (startOf e <=? startOf x); cbn [In].
    + intuition congruence.
    + rewrite IH. intuition congruence.
Qed.

Lemma In_orderByStartTime (y : Event) (l : list Event) :
  In y (orderByStartTime l) <-> In y l.
Proof.
  induction l as [| x l IH]; [reflexivity | ].
  cbn [orderByStartTime fold_right]. fold (orderByStartTime l).
  rewrite In_insertByStart, IH. cbn [In]. intuition congruence.
Qed.

Lemma In_listing (p : ListParams) (y : Event) (l : list Event) :
  In y (listing p l) <-> In y l /\ inWindow (timeMin p) (timeMax p) y = true.
Proof.
  unfold listing. rewrite In_orderByStartTime. apply filter_In.
Qed.

Lemma insertByStart_ascending (e : Event) (l : list Event) :
  ascendingByStart l = true -> ascendingByStart (insertByStart e l) = true.
Proof.
  induction l as [| x l IH]; intros H; [reflexivity | ].
  cbn [insertByStart]. destruct (startOf e <=? startOf x) eqn:Hex.
  - cbn [ascendingByStart]. cbn [ascendingByStart] in H. now rewrite Hex, H.
  - assert (Hxe : (startOf x <=? startOf e) = true).
    { apply Z.leb_le. apply Z.leb_gt in Hex. lia. }
    assert (Hl : ascendingByStart l = true).
    { cbn [ascendingByStart] in H. destruct l; [reflexivity | ].
      now apply andb_prop in H as [_ H]. }
    specialize (IH Hl).
    destruct l as [| z l].
    + cbn [insertByStart ascendingByStart]. now rewrite Hxe.
    + cbn [ascendingByStart] in H. apply andb_prop in H as [Hxz _].
      cbn [insertByStart] in IH |- *.
      destruct (startOf e <=? startOf z).
      * cbn [ascendingByStart] in IH |- *. now rewrite Hxe, IH.
      * cbn [ascendingByStart] in IH |- *. now rewrite Hxz, IH.
Qed.

(** The store answers in ascending order of start time. *)
Lemma listing_ascending (p : ListParams) (l : list Event) :
  ascendingByStart (listing p l) = true.
Proof.
  unfold listing. induction (filter (inWindow (timeMin p) (timeMax p)) l) as [| x f IH].
  - reflexivity.
  - apply insertByStart_ascending, IH.
Qed.

(** Inserting leaves an event in place together with the later events
    behind it. *)
Lemma insertByStart_behind (a x : Event) (l1 l2 : list Event) :
  (forall y, In y l2 -> startOf x < startOf y) ->
  exists l1' l2',
    insertByStart a (l1 ++ x :: l2) = l1' ++ x :: l2'
    /\ (forall y, In y l2' -> startOf x < startOf y /\ (y = a \/ In y l2)).
Proof.
  intros Hl2. induction l1 as [| b l1 IH]; cbn [app insertByStart].
  - destruct (startOf a <=? startOf x) eqn:Hax.
    + exists [a], l2. split; [reflexivity | ]. intros y Hy. auto.
    + exists [], (insertByStart a l2). split; [reflexivity | ].
      intros y Hy. apply In_insertByStart in Hy as [-> | Hy].
      * apply Z.leb_gt in Hax. auto.
      * auto.
  - destruct (startOf a <=? startOf b).
    + exists (a :: b :: l1), l2. split; [reflexivity | ]. intros y Hy. auto.
    + destruct IH as (l1' & l2' & Heq & Hbehind).
      exists (b :: l1'), l2'. rewrite Heq. split; [reflexivity | exact Hbehind].
Qed.

(** The event inserted last is listed after every event that does not start
    later than it. *)
Lemma orderByStartTime_newest (l : list Event) (x : Event) :
  exists l1 l2,
    orderByStartTime (l ++ [x]) = l1 ++ x :: l2
    /\ (forall y, In y l2 -> startOf x < startOf y /\ In y l).
Proof.
  induction l as [| a l IH].
  - exists [], []. split; [reflexivity | intros y []].
  - destruct IH as (l1 & l2 & Heq & Hbehind).
    cbn [app orderByStartTime fold_right]. fold (orderByStartTime (l ++ [x])).
    rewrite Heq.
    destruct (insertByStart_behind a x l1 l2) as (l1' & l2' & Heq' & Hbehind').
    { intros y Hy. now apply Hbehind. }
    exists l1', l2'. split; [exact Heq' | ].
    intros y Hy. destruct (Hbehind' y Hy) as [Hlt [-> | Hin]].
    + split; [exact Hlt | now left].
    + split; [exact Hlt | right; now apply Hbehind].
Qed.

Lemma noOpenAfter_spec (t : Z) (l : list Event) :
  noOpenAfter t l = true ->
  forall y, In y l -> openMarked y = true -> startOf y <= t.
Proof.
  unfold noOpenAfter. rewrite forallb_forall. intros H y Hy Hopen.
  specialize (H y Hy). rewrite Hopen in H. cbn in H. now apply Z.leb_le.
Qed.

(** The resolver finds the open-marked event inserted last, when it is in the
    window and no other open-marked event starts later. *)
Lemma resolver_finds_newest (p : ListParams) (l : list Event) (x : Event) :
  openMarked x = true ->
  inWindow (timeMin p) (timeMax p) x = true ->
  noOpenAfter (startOf x) l = true ->
  latestIncompleteOf None (listing p (l ++ [x])) = Resolved x.
Proof.
  intros Hopen Hwin Hafter. unfold listing.
  rewrite filter_app. cbn [filter]. rewrite Hwin.
  destruct (orderByStartTime_newest (filter (inWindow (timeMin p) (timeMax p)) l) x)
    as (l1 & l2 & Heq & Hbehind).
  rewrite Heq. apply latestIncompleteOf_split; [exact Hopen | ].
  apply forallb_forall. intros y Hy.
  destruct (Hbehind y Hy) as [Hlt Hin]. apply filter_In in Hin as [Hin _].
  destruct (openMarked y) eqn:Hy_open; [ | reflexivity].
  pose proof (noOpenAfter_spec _ _ Hafter y Hin Hy_open). lia.
Qed.

Lemma patchWhere_id (p : PatchParams) (stamp : Z) (x : Event) :
  ev_id (patchWhere p stamp x) = ev_id x.
Proof. unfold patchWhere. now destruct (Nat.eqb (ev_id x) (patch_eventId p)). Qed.

Lemma patchWhere_ids (p : PatchParams) (stamp : Z) (l : list Event) :
  map ev_id (map (patchWhere p stamp) l) = map ev_id l.
Proof.
  rewrite map_map. apply map_ext. intros x. apply patchWhere_id.
Qed.

Lemma freshId_above (l : list Event) (y : Event) :
  In y l -> (ev_id y < freshId l)%nat.
Proof.
  intros Hy. unfold freshId.
  assert (H : (list_max (map ev_id l) <= list_max (map ev_id l))%nat) by lia.
  apply list_max_le in H. rewrite Forall_forall in H.
  specialize (H (ev_id y) (in_map ev_id l y Hy)). lia.
Qed.

Lemma patchWhere_others (p : PatchParams) (stamp : Z) (l : list Event) :
  (forall y, In y l -> ev_id y <> patch_eventId p) ->
  map (patchWhere p stamp) l = l.
Proof.
  intros H. rewrite <- (map_id l) at 2. apply map_ext_in. intros y Hy.
  unfold patchWhere. destruct (Nat.eqb (ev_id y) (patch_eventId p)) eqn:E.
  - apply Nat.eqb_eq in E. now apply H in Hy.
  - reflexivity.
Qed.

Lemma distinctIds_split (pre post : list Event) (e : Event) :
  distinctIds (pre ++ e :: post) = true ->
  (forall y, In y pre -> ev_id y <> ev_id e)
  /\ (forall y, In y post -> ev_id y <> ev_id e).
Proof.
  induction pre as [| b pre IH]; cbn [app distinctIds]; intros H;
    apply andb_prop in H as [Hhead Hrest].
  - split; [intros y [] | ].
    rewrite forallb_forall in Hhead. intros y Hy.
    specialize (Hhead y Hy). now apply negb_true_iff, Nat.eqb_neq in Hhead.
  - destruct (IH Hrest) as [Hpre Hpost]. split; [ | exact Hpost].
    intros y [<- | Hy]; [ | auto].
    rewrite forallb_forall in Hhead.
    assert (Hin : In e (pre ++ e :: post)) by (apply in_or_app; right; now left).
    specialize (Hhead e Hin). apply negb_true_iff, Nat.eqb_neq in Hhead. congruence.
Qed.

(** With distinct identifiers a patch changes the one event it names. *)
Lemma patchWhere_split (p : PatchParams) (stamp : Z) (pre post : list Event) (e : Event) :
  distinctIds (pre ++ e :: post) = true ->
  patch_eventId p = ev_id e ->
  map (patchWhere p stamp) (pre ++ e :: post)
  = pre ++ applyPatch (patch_resource p) stamp e :: post.
Proof.
  intros Hd Hid. destruct (distinctIds_split pre post e Hd) as [Hpre Hpost].
  rewrite map_app. cbn [map].
  rewrite !patchWhere_others by (intros y Hy; rewrite Hid; auto).
  unfold patchWhere at 1. rewrite Hid, Nat.eqb_refl. reflexivity.
Qed.

End Store.

(* ================================================================= *)
(** ** Running the operations *)

Section Runs.

Variable host : Host.
Variable this : Logger.

Lemma await_resolved {A B} (p : Async A) (k : A -> Async B) (w w' : World) (a : A) :
  p w = (Resolved a, w') -> await p k w = k a w'.
Proof. intros H. unfold await. now rewrite H. Qed.

Lemma await_rejected {A B} (p : Async A) (k : A -> Async B) (w w' : World)
    (reason : Rejection) :
  p w = (Rejected reason, w') -> await p k w = (Rejected reason, w').
Proof. intros H. unfold await. now rewrite H. Qed.

Lemma getCurrentTime_run (w : World) :
  getCurrentTime host w
  = (Resolved (reading host w 0, tz_guess host), advance 1 0 (events w) w).
Proof. reflexivity. Qed.

Lemma getLatestIncompleteLogEvent_run (currentTime : Z) (w : World) :
  net host (requests w) = None ->
  getLatestIncompleteLogEvent host this currentTime (tz_guess host) w
  = (latestIncompleteOf None (shown this host currentTime (events w)),
     advance 0 1 (events w) w).
Proof.
  intros Hnet. unfold getLatestIncompleteLogEvent, await, events_list.
  rewrite Hnet. reflexivity.
Qed.

Lemma logStart_run (w : World) :
  net host (requests w) = None ->
  logStart host this w
  = (Resolved tt,
     advance 2 1
       (events w ++ [startedEvent host this (freshId (events w))
                       (reading host w 0) (reading host w 1)])
       w).
Proof.
  intros Hnet. unfold logStart.
  rewrite (await_resolved _ _ _ _ _ (getCurrentTime_run w)).
  unfold await, events_insert. cbn [requests advance Nat.add].
  rewrite Hnet. reflexivity.
Qed.

Lemma findById_In (e : Event) (l : list Event) :
  In e l -> exists e', findById (ev_id e) l = Some e'.
Proof.
  induction l as [| x l IH]; intros H; [destruct H | ].
  cbn [findById]. destruct (Nat.eqb (ev_id x) (ev_id e)) eqn:Hx.
  - now exists x.
  - destruct H as [-> | H]; [ | auto].
    rewrite Nat.eqb_refl in Hx. discriminate.
Qed.

Lemma events_patch_run (p : PatchParams) (w : World) (e : Event) :
  net host (requests w) = None ->
  findById (patch_eventId p) (events w) = Some e ->
  events_patch host p w
  = (Resolved (None, Some (patchWhere p (reading host w 0) e)),
     advance 1 1 (map (patchWhere p (reading host w 0)) (events w)) w).
Proof.
  intros Hnet Hfind. unfold events_patch. rewrite Hnet, Hfind. reflexivity.
Qed.

Lemma logEndDueToInactivity_run (latest : Event) (activityTime : Z) (w : World) :
  net host (requests w) = None ->
  In latest (events w) ->
  logEndDueToInactivity host this latest activityTime w
  = (Resolved tt,
     advance 1 1
       (map (patchWhere (inactivityPatch host this latest activityTime)
               (reading host w 0)) (events w)) w).
Proof.
  intros Hnet Hin. destruct (findById_In latest (events w) Hin) as (e' & Hfind).
  unfold logEndDueToInactivity.
  rewrite (await_resolved _ _ _ _ _
             (events_patch_run (inactivityPatch host this latest activityTime)
                w e' Hnet Hfind)).
  reflexivity.
Qed.

(** The resolver's answer is rejected: so is the activity report. *)
Lemma logActivity_rejected (fuel : nat) (m : string) (w : World) (reason : Rejection) :
  net host (requests w) = None ->
  latestIncompleteOf None (shown this host (reading host w 0) (events w))
  = Rejected reason ->
  logActivity host this (S fuel) m w = (Rejected reason, advance 1 1 (events w) w).
Proof.
  intros Hnet Hrej. cbn [logActivity].
  rewrite (await_resolved _ _ _ _ _ (getCurrentTime_run w)).
  apply await_rejected.
  rewrite getLatestIncompleteLogEvent_run by exact Hnet.
  cbn [events advance]. rewrite Hrej. reflexivity.
Qed.

Lemma logEnd_rejected (w : World) (reason : Rejection) :
  net host (requests w) = None ->
  latestIncompleteOf None (shown this host (reading host w 0) (events w))
  = Rejected reason ->
  logEnd host this w = (Rejected reason, advance 1 1 (events w) w).
Proof.
  intros Hnet Hrej. unfold logEnd.
  rewrite (await_resolved _ _ _ _ _ (getCurrentTime_run w)).
  apply await_rejected.
  rewrite getLatestIncompleteLogEvent_run by exact Hnet.
  cbn [events advance]. rewrite Hrej. reflexivity.
Qed.

(** The resolver finds [latest], which has not lapsed: the report patches it. *)
Lemma logActivity_patches (fuel : nat) (m : string) (w : World) (latest : Event) :
  net host (requests w) = None ->
  net host (1 + requests w) = None ->
  latestIncompleteOf None (shown this host (reading host w 0) (events w))
  = Resolved latest ->
  hasInactivity this latest (reading host w 0) = false ->
  logActivity host this (S fuel) m w
  = (Resolved tt,
     advance 2 2
       (map (patchWhere
               (activityPatch host this latest (reading host w 0) (tz_guess host) m)
               (reading host w 1)) (events w)) w).
Proof.
  intros Hnet0 Hnet1 Hres Hfresh.
  destruct (latestIncompleteOf_resolved _ _ _ Hres) as (_ & Hin & _).
  assert (Hin' : In latest (events w)).
  { now apply In_listing in Hin as [Hin _]. }
  cbn [logActivity].
  rewrite (await_resolved _ _ _ _ _ (getCurrentTime_run w)).
  rewrite (await_resolved _ _ (advance 1 0 (events w) w)
             (advance 1 1 (events w) w) latest).
  2:{ rewrite getLatestIncompleteLogEvent_run by exact Hnet0.
      cbn [events advance]. rewrite Hres. reflexivity. }
  rewrite Hfresh.
  destruct (findById_In latest (events w) Hin') as (e' & Hfind).
  rewrite (await_resolved _ _ _ _ _
             (events_patch_run
                (activityPatch host this latest (reading host w 0) (tz_guess host) m)
                (advance 1 1 (events w) w) e' Hnet1 Hfind)).
  reflexivity.
Qed.

Lemma logEnd_concludes (w : World) (latest : Event) :
  net host (requests w) = None ->
  net host (1 + requests w) = None ->
  latestIncompleteOf None (shown this host (reading host w 0) (events w))
  = Resolved latest ->
  hasInactivity this latest (reading host w 0) = false ->
  logEnd host this w
  = (Resolved tt,
     advance 2 2
       (map (patchWhere
               (concludePatch host this latest (reading host w 0) (tz_guess host))
               (reading host w 1)) (events w)) w).
Proof.
  intros Hnet0 Hnet1 Hres Hfresh.
  destruct (latestIncompleteOf_resolved _ _ _ Hres) as (_ & Hin & _).
  apply In_listing in Hin as [Hin _].
  unfold logEnd.
  rewrite (await_resolved _ _ _ _ _ (getCurrentTime_run w)).
  rewrite (await_resolved _ _ (advance 1 0 (events w) w)
             (advance 1 1 (events w) w) latest).
  2:{ rewrite getLatestIncompleteLogEvent_run by exact Hnet0.
      cbn [events advance]. rewrite Hres. reflexivity. }
  rewrite Hfresh.
  destruct (findById_In latest (events w) Hin) as (e' & Hfind).
  rewrite (await_resolved _ _ _ _ _
             (events_patch_run
                (concludePatch host this latest (reading host w 0) (tz_guess host))
                (advance 1 1 (events w) w) e' Hnet1 Hfind)).
  reflexivity.
Qed.

(** The resolver finds [latest], which has lapsed: the report closes it,
    starts a new log and reports again. *)
Lemma logActivity_lapse (fuel : nat) (m : string) (w : World) (latest : Event) :
  net host (requests w) = None ->
  net host (1 + requests w) = None ->
  net host (2 + requests w) = None ->
  latestIncompleteOf None (shown this host (reading host w 0) (events w))
  = Resolved latest ->
  hasInactivity this latest (reading host w 0) = true ->
  let closed :=
    map (patchWhere (inactivityPatch host this latest (reading host w 0))
           (reading host w 1)) (events w) in
  logActivity host this (S fuel) m w
  = logActivity host this fuel m
      (advance 4 3
         (closed ++ [startedEvent host this (freshId closed)
                       (reading host w 2) (reading host w 3)]) w).
Proof.
  intros Hnet0 Hnet1 Hnet2 Hres Hlapsed closed.
  destruct (latestIncompleteOf_resolved _ _ _ Hres) as (_ & Hin & _).
  apply In_listing in Hin as [Hin _].
  cbn [logActivity].
  rewrite (await_resolved _ _ _ _ _ (getCurrentTime_run w)).
  rewrite (await_resolved _ _ (advance 1 0 (events w) w)
             (advance 1 1 (events w) w) latest).
  2:{ rewrite getLatestIncompleteLogEvent_run by exact Hnet0.
      cbn [events advance]. rewrite Hres. reflexivity. }
  rewrite Hlapsed.
  rewrite (await_resolved _ _ _ _ _
             (logEndDueToInactivity_run latest (reading host w 0)
                (advance 1 1 (events w) w) Hnet1 Hin)).
  rewrite (await_resolved _ _ _ _ _ (logStart_run (advance 2 2 closed w) Hnet2)).
  reflexivity.
Qed.

(** A report when the session inserted last is the open one and has not
    lapsed: that event is patched, every other event is left as it is. *)
Lemma logActivity_on_newest (fuel : nat) (m : string) (w : World)
    (l : list Event) (x : Event) :
  events w = l ++ [x] ->
  net host (requests w) = None ->
  net host (1 + requests w) = None ->
  openMarked x = true ->
  (forall y, In y l -> ev_id y <> ev_id x) ->
  noOpenAfter (startOf x) l = true ->
  inWindow (reading host w 0 - lookback) (reading host w 0) x = true ->
  hasInactivity this x (reading host w 0) = false ->
  logActivity host this (S fuel) m w
  = (Resolved tt,
     advance 2 2
       (l ++ [applyPatch
                (patch_resource
                   (activityPatch host this x (reading host w 0) (tz_guess host) m))
                (reading host w 1) x]) w).
Proof.
  intros Hev Hnet0 Hnet1 Hopen Hids Hafter Hwin Hfresh.
  rewrite (logActivity_patches fuel m w x Hnet0 Hnet1); [ | | exact Hfresh].
  - rewrite Hev, map_app. cbn [map].
    rewrite patchWhere_others by exact Hids.
    unfold patchWhere at 1. cbn [patch_eventId activityPatch].
    rewrite Nat.eqb_refl. reflexivity.
  - rewrite Hev. unfold shown. now apply resolver_finds_newest.
Qed.

Lemma logEnd_on_newest (w : World) (l : list Event) (x : Event) :
  events w = l ++ [x] ->
  net host (requests w) = None ->
  net host (1 + requests w) = None ->
  openMarked x = true ->
  (forall y, In y l -> ev_id y <> ev_id x) ->
  noOpenAfter (startOf x) l = true ->
  inWindow (reading host w 0 - lookback) (reading host w 0) x = true ->
  hasInactivity this x (reading host w 0) = false ->
  logEnd host this w
  = (Resolved tt,
     advance 2 2
       (l ++ [applyPatch
                (patch_resource
                   (concludePatch host this x (reading host w 0) (tz_guess host)))
                (reading host w 1) x]) w).
Proof.
  intros Hev Hnet0 Hnet1 Hopen Hids Hafter Hwin Hfresh.
  rewrite (logEnd_concludes w x Hnet0 Hnet1); [ | | exact Hfresh].
  - rewrite Hev, map_app. cbn [map].
    rewrite patchWhere_others by exact Hids.
    unfold patchWhere at 1. cbn [patch_eventId concludePatch].
    rewrite Nat.eqb_refl. reflexivity.
  - rewrite Hev. unfold shown. now apply resolver_finds_newest.
Qed.

End Runs.

(* ================================================================= *)
(** ** Sessions *)

Section Sessions.

Variable host : Host.
Variable this : Logger.

Lemma activityLine_not_empty (date : Z) (m : string) :
  activityLine host date m <> "".
Proof. unfold activityLine, twoDigits. cbn [String.append]. discriminate. Qed.

Lemma append_not_empty (a b : string) : a <> "" -> a +++ b <> "".
Proof. destruct a; [congruence | cbn; discriminate]. Qed.

Lemma addToDescription_first (date : Z) (m : string) :
  addToDescription host date m None = activityLine host date m.
Proof. rewrite addToDescription_line. reflexivity. Qed.

Lemma addToDescription_next (date : Z) (m prior : string) :
  prior <> "" ->
  addToDescription host date m (Some prior)
  = prior +++ LF +++ activityLine host date m.
Proof.
  intros Hne. rewrite addToDescription_line.
  destruct prior as [| c prior]; [congruence | ].
  apply append_assoc.
Qed.

Lemma hasInactivity_stamped (e : Event) (stamp now : Z) :
  ev_updated e = Some (Instant stamp) ->
  hasInactivity this e now = (now - stamp >? msUntilInactivity this).
Proof. intros H. unfold hasInactivity. rewrite H. reflexivity. Qed.

Lemma hasInactivity_within (e : Event) (stamp now : Z) :
  ev_updated e = Some (Instant stamp) ->
  now - stamp <= msUntilInactivity this ->
  hasInactivity this e now = false.
Proof.
  intros H Hle. rewrite (hasInactivity_stamped e stamp now H).
  rewrite Z.gtb_ltb. apply Z.ltb_ge. exact Hle.
Qed.

Lemma hasInactivity_lapsed (e : Event) (last now : Z) :
  lastActivityOf e = Some last ->
  now - last > msUntilInactivity this ->
  hasInactivity this e now = true.
Proof.
  intros H Hgt. unfold hasInactivity. rewrite (timeOf_lastActivity e last H).
  cbn [minus greaterThan]. rewrite Z.gtb_ltb. apply Z.ltb_lt. lia.
Qed.

Lemma inWindow_intro (tmin tmax : Z) (e : Event) :
  tmin < endOf e -> startOf e < tmax -> inWindow tmin tmax e = true.
Proof.
  intros H1 H2. unfold inWindow.
  apply andb_true_intro. split; now apply Z.ltb_lt.
Qed.

Lemma noOpenAfter_app (t : Z) (a b : list Event) :
  noOpenAfter t (a ++ b) = noOpenAfter t a && noOpenAfter t b.
Proof. apply forallb_app. Qed.

Lemma freshId_differs (l : list Event) (y : Event) :
  In y l -> ev_id y <> freshId l.
Proof. intros H. apply freshId_above in H. lia. Qed.

(** C3: from a list in ascending order of start time (the order the store
    answers in) that holds two or more open-marked events, the resolver
    resolves with one of them, never rejects or throws: the last open-marked
    event of the list, whose start time no other open-marked event exceeds.
    The choice is a function of the list alone, and
    [getLatestIncompleteLogEvent] resolves with it whenever the store answers
    with that list. *)
Theorem resolver_picks_latest_open (items : list Event) :
  ascendingByStart items = true ->
  (2 <= List.length (filter openMarked items))%nat ->
  exists before e after,
    items = before ++ e :: after
    /\ markerOf e = Some "false"
    /\ (forall x, In x after -> openMarked x = false)
    /\ (forall x, In x items -> openMarked x = true -> startOf x <= startOf e)
    /\ latestIncompleteOf None items = Resolved e
    /\ (forall e', latestIncompleteOf None items = Resolved e' -> e' = e)
    /\ (forall currentTime w,
          net host (requests w) = None ->
          shown this host currentTime (events w) = items ->
          getLatestIncompleteLogEvent host this currentTime (tz_guess host) w
          = (Resolved e, advance 0 1 (events w) w)).
Proof.
  intros Hasc Htwo.
  destruct (last_open_split items) as (before & e & after & Hitems & He & Hafter);
    [lia | ].
  exists before, e, after.
  assert (Hclosed : forall x, In x after -> openMarked x = false).
  { intros x Hx. rewrite forallb_forall in Hafter.
    specialize (Hafter x Hx). now destruct (openMarked x). }
  assert (Hres : latestIncompleteOf None items = Resolved e).
  { rewrite Hitems. now apply latestIncompleteOf_split. }
  repeat split; try assumption.
  - now apply openMarked_marker.
  - intros x Hx Hopen. rewrite Hitems in Hx, Hasc.
    apply in_app_or in Hx as [Hx | [<- | Hx]].
    + exact (ascending_before_le before after e Hasc x Hx).
    + lia.
    + rewrite (Hclosed x Hx) in Hopen. discriminate.
  - intros e' He'. rewrite Hres in He'. now inversion He'.
  - intros currentTime w Hnet Hshown.
    rewrite getLatestIncompleteLogEvent_run by exact Hnet.
    now rewrite Hshown, Hres.
Qed.

(** C9: the open-marker test of the scan is total: on every event it returns
    normally, with a truthy result exactly when the event carries the marker
    ['false']; the scan never throws, whatever the events look like, an event
    it resolves with is one of the list and carries that marker, and no
    exception escapes [getLatestIncompleteLogEvent]. *)
Theorem open_marker_test_total (err : option string) (items : list Event) :
  (forall event, exists v,
      isIncomplete event = Normal v
      /\ (truthy v = true <-> markerOf event = Some "false"))
  /\ (exists found, array_find isIncomplete (rev items) = Normal found)
  /\ (forall message, latestIncompleteOf err items <> Uncaught message)
  /\ (forall e, latestIncompleteOf err items = Resolved e ->
                In e items /\ markerOf e = Some "false")
  /\ (forall currentTime timeZone w message,
        fst (getLatestIncompleteLogEvent host this currentTime timeZone w)
        <> Uncaught message).
Proof.
  assert (Hcaught : forall err' items' message,
             latestIncompleteOf err' items' <> Uncaught message).
  { intros err' items' message. unfold latestIncompleteOf.
    destruct err'; [discriminate | ].
    destruct (negb (Nat.eqb (List.length items') 0)); [ | discriminate].
    rewrite array_find_isIncomplete.
    destruct (find openMarked (rev items')); discriminate. }
  split; [ | split; [ | split; [ | split]]].
  - intros event.
    destruct (isIncomplete_openMarked event) as (v & Hv & Ht).
    exists v. split; [exact Hv | ]. rewrite Ht. apply openMarked_marker.
  - eexists. apply array_find_isIncomplete.
  - intros message. apply Hcaught.
  - intros e H. apply latestIncompleteOf_resolved in H as (_ & Hin & Hopen).
    split; [exact Hin | now apply openMarked_marker].
  - intros currentTime timeZone w message.
    unfold getLatestIncompleteLogEvent, await, events_list.
    destruct (net host (requests w)); cbn [fst settle]; apply Hcaught.
Qed.

(** C7: when the events listed for the lookback window hold no open-marked
    event (or there are none at all), the resolver rejects with an [Error] of
    its own, not with an error of the API and not with an event, and
    [logActivity] and [logEnd] end with that same rejection, the calendar
    untouched. *)
Theorem no_open_session_is_rejected (fuel : nat) (m : string) (w : World) :
  net host (requests w) = None ->
  let items := shown this host (reading host w 0) (events w) in
  let notFound :=
    JSError (match items with
             | [] => "Found no events in the past 7 days."
             | _ :: _ => "No latest incomplete event found in the past 7 days."
             end) in
  forallb (fun e => negb (openMarked e)) items = true ->
  getLatestIncompleteLogEvent host this (reading host w 0) (tz_guess host) w
  = (Rejected notFound, advance 0 1 (events w) w)
  /\ (forall err, notFound <> ApiError err)
  /\ (forall e : Event, Rejected notFound <> Resolved e)
  /\ logActivity host this (S fuel) m w = (Rejected notFound, advance 1 1 (events w) w)
  /\ logEnd host this w = (Rejected notFound, advance 1 1 (events w) w).
Proof.
  intros Hnet items notFound Hclosed.
  pose proof (latestIncompleteOf_none_open items Hclosed) as Hrej.
  fold notFound in Hrej.
  repeat split.
  - rewrite getLatestIncompleteLogEvent_run by exact Hnet. now rewrite <- Hrej.
  - intros err. discriminate.
  - intros e. discriminate.
  - now apply logActivity_rejected.
  - now apply logEnd_rejected.
Qed.

Lemma patchWhere_keeps_times (p : PatchParams) (stamp : Z) (x : Event) :
  start (patch_resource p) = None ->
  end_ (patch_resource p) = None ->
  ev_start (patchWhere p stamp x) = ev_start x
  /\ ev_end (patchWhere p stamp x) = ev_end x.
Proof.
  intros Hs He. unfold patchWhere.
  destruct (Nat.eqb (ev_id x) (patch_eventId p)); [ | split; reflexivity].
  unfold applyPatch. cbn [ev_start ev_end]. rewrite Hs, He. split; reflexivity.
Qed.

(** C10: the patch of [logEndDueToInactivity] gives a summary, a description
    and the marker ['true'] and neither [start] nor [end]; whatever the
    request's fate, every event of the calendar keeps its identifier, its
    start and its end, so the closed event still ends where its last recorded
    activity left it, not at the time the lapse is detected. *)
Theorem inactivity_close_keeps_start_and_end (latest : Event) (activityTime : Z)
    (w : World) :
  let r := patch_resource (inactivityPatch host this latest activityTime) in
  let w' := snd (logEndDueToInactivity host this latest activityTime w) in
  start r = None
  /\ end_ r = None
  /\ summary r = Some (getLogName this (activityConcluded (strings this)))
  /\ description r
     = Some (addToDescription host activityTime
               (getLogName this (activityConcluded (strings this)) +++ " "
                +++ getLogName this (closedDueToInactivity (strings this)))
               (ev_description latest))
  /\ extendedProperties r = Some (completedProperty "true")
  /\ map ev_id (events w') = map ev_id (events w)
  /\ map ev_start (events w') = map ev_start (events w)
  /\ map ev_end (events w') = map ev_end (events w)
  /\ (forall i e', nth_error (events w') i = Some e' ->
        ev_id e' <> ev_id latest -> nth_error (events w) i = Some e').
Proof.
  intros r w'.
  assert (Hcases : events w' = events w
                   \/ exists stamp,
                       events w'
                       = map (patchWhere (inactivityPatch host this latest activityTime)
                                stamp) (events w)).
  { unfold w', logEndDueToInactivity, await, events_patch.
    destruct (net host (requests w)); [left; reflexivity | ].
    cbn [patch_eventId inactivityPatch].
    destruct (findById (ev_id latest) (events w)); [ | left; reflexivity].
    right. eexists. reflexivity. }
  do 5 (split; [reflexivity | ]).
  destruct Hcases as [-> | (stamp & ->)].
  - repeat split. intros i e' H _. exact H.
  - repeat split.
    + apply patchWhere_ids.
    + rewrite map_map. apply map_ext. intros x.
      now apply patchWhere_keeps_times.
    + rewrite map_map. apply map_ext. intros x.
      now apply patchWhere_keeps_times.
    + intros i e' H Hid. rewrite nth_error_map in H.
      destruct (nth_error (events w) i) as [x | ]; [ | discriminate].
      cbn in H. inversion H as [Hx]. rewrite Hx.
      unfold patchWhere in Hx, Hid.
      cbn [patch_eventId inactivityPatch] in Hx, Hid.
      destruct (Nat.eqb (ev_id x) (ev_id latest)) eqn:E.
      * apply Nat.eqb_eq in E. subst e'. cbn in Hid. congruence.
      * now rewrite Hx.
Qed.

Lemma net_served (w : World) (n k : nat) :
  (forall j, (j < n)%nat -> net host (j + requests w) = None) ->
  (k < n)%nat -> net host (k + requests w) = None.
Proof. intros H Hk. now apply H. Qed.

Lemma resolved_in_calendar (currentTime : Z) (l : list Event) (e : Event) :
  latestIncompleteOf None (shown this host currentTime l) = Resolved e ->
  In e l /\ openMarked e = true.
Proof.
  intros H. apply latestIncompleteOf_resolved in H as (_ & Hin & Hopen).
  apply In_listing in Hin as [Hin _]. now split.
Qed.

(** A report that finds the open session lapsed, step by step: the stale
    event is closed and the others are left alone, a new event is inserted,
    the second report finds the new event, not lapsed, and patches it. *)
Lemma lapse_run (m : string) (w : World) (pre post : list Event) (old : Event) :
  let t := reading host w in
  let tz := tz_guess host in
  let closed :=
    applyPatch (patch_resource (inactivityPatch host this old (t 0%nat))) (t 1%nat) old in
  let mid := pre ++ closed :: post in
  let fresh := startedEvent host this (freshId mid) (t 2%nat) (t 3%nat) in
  let reported :=
    applyPatch (patch_resource (activityPatch host this fresh (t 4%nat) tz m))
      (t 5%nat) fresh in
  (forall k, (k < 5)%nat -> net host (k + requests w) = None) ->
  events w = pre ++ old :: post ->
  distinctIds (events w) = true ->
  latestIncompleteOf None (shown this host (t 0%nat) (events w)) = Resolved old ->
  hasInactivity this old (t 0%nat) = true ->
  noOpenAfter (t 2%nat) (events w) = true ->
  t 2%nat < t 4%nat ->
  t 4%nat - lookback < t 2%nat + 1000 ->
  t 4%nat - t 3%nat <= msUntilInactivity this ->
  (forall fuel,
      logActivity host this (S fuel) m w
      = logActivity host this fuel m (advance 4 3 (mid ++ [fresh]) w))
  /\ latestIncompleteOf None (shown this host (t 4%nat) (mid ++ [fresh]))
     = Resolved fresh
  /\ hasInactivity this fresh (t 4%nat) = false
  /\ (forall fuel,
        logActivity host this (S fuel) m (advance 4 3 (mid ++ [fresh]) w)
        = (Resolved tt, advance 6 5 (mid ++ [reported]) w)).
Proof.
  intros t tz closed mid fresh reported Hnet Hev Hdistinct Hres Hlapsed Hafter
    Hlt Hwin Hgap.
  assert (Hmid : map (patchWhere (inactivityPatch host this old (t 0%nat)) (t 1%nat))
                   (events w) = mid).
  { rewrite Hev. apply patchWhere_split; [ | reflexivity]. now rewrite <- Hev. }
  assert (Hmid_after : noOpenAfter (t 2%nat) mid = true).
  { unfold mid. rewrite Hev in Hafter.
    rewrite noOpenAfter_app in Hafter |- *.
    apply andb_prop in Hafter as [Hpre Hrest].
    rewrite Hpre. cbn [andb]. unfold noOpenAfter in Hrest |- *.
    cbn [forallb] in Hrest |- *.
    apply andb_prop in Hrest as [_ Hpost]. now rewrite Hpost. }
  assert (Hfresh_in : inWindow (t 4%nat - lookback) (t 4%nat) fresh = true).
  { apply inWindow_intro; [exact Hwin | exact Hlt]. }
  assert (Hfresh_ok : hasInactivity this fresh (t 4%nat) = false).
  { apply (hasInactivity_within fresh (t 3%nat)); [reflexivity | exact Hgap]. }
  split; [ | split; [ | split]].
  - intros fuel.
    rewrite (logActivity_lapse host this fuel m w old); trivial.
    + fold t. rewrite Hmid. reflexivity.
    + apply (net_served w 5 0 Hnet). lia.
    + apply (net_served w 5 1 Hnet). lia.
    + apply (net_served w 5 2 Hnet). lia.
  - unfold shown. apply resolver_finds_newest;
      [reflexivity | exact Hfresh_in | exact Hmid_after].
  - exact Hfresh_ok.
  - intros fuel.
    apply (logActivity_on_newest host this fuel m
             (advance 4 3 (mid ++ [fresh]) w) mid fresh).
    + reflexivity.
    + apply (net_served w 5 3 Hnet). lia.
    + apply (net_served w 5 4 Hnet). lia.
    + reflexivity.
    + apply freshId_differs.
    + exact Hmid_after.
    + exact Hfresh_in.
    + exact Hfresh_ok.
Qed.

(** C1, as the code has it: a report that finds the open session with more
    than the inactivity threshold elapsed since its last modification, and
    whose second report (the recursive call after the new start) comes within
    the threshold of the new log's stamp and finds it in its lookback, leaves
    two events of it in the calendar: the formerly open event, now marked
    ['true'], its description extended by the inactivity line and by nothing
    else, and a newly inserted event with a new identifier, open-marked, whose
    description is the start line followed by the line of the reported
    activity.  Every other event is as it was. *)
Theorem lapse_closes_and_starts_anew (m : string) (fuel : nat) (w : World)
    (old : Event) (last : Z) :
  let t := reading host w in
  let started := getLogName this (activityStarted (strings this)) in
  let reason :=
    getLogName this (activityConcluded (strings this)) +++ " "
    +++ getLogName this (closedDueToInactivity (strings this)) in
  (forall k, (k < 5)%nat -> net host (k + requests w) = None) ->
  distinctIds (events w) = true ->
  latestIncompleteOf None (shown this host (t 0%nat) (events w)) = Resolved old ->
  lastActivityOf old = Some last ->
  t 0%nat - last > msUntilInactivity this ->
  noOpenAfter (t 2%nat) (events w) = true ->
  t 2%nat < t 4%nat ->
  t 4%nat - lookback < t 2%nat + 1000 ->
  t 4%nat - t 3%nat <= msUntilInactivity this ->
  exists (pre post : list Event) (closed fresh : Event),
    events w = pre ++ old :: post
    /\ logActivity host this (S (S fuel)) m w
       = (Resolved tt, advance 6 5 (pre ++ closed :: post ++ [fresh]) w)
    /\ ev_id closed = ev_id old
    /\ markerOf closed = Some "true"
    /\ ev_description closed
       = Some ((match ev_description old with
                | None | Some "" => ""
                | Some prior => prior +++ LF
                end) +++ activityLine host (t 0%nat) reason)
    /\ (forall y, In y (events w) -> ev_id y <> ev_id fresh)
    /\ markerOf fresh = Some "false"
    /\ ev_description fresh
       = Some (joinLines [activityLine host (t 2%nat) started;
                          activityLine host (t 4%nat) m]).
Proof.
  intros t started reason Hnet Hdistinct Hres Hlast Hgt Hafter Hlt Hwin Hgap.
  destruct (resolved_in_calendar _ _ _ Hres) as [Hin _].
  destruct (in_split old (events w) Hin) as (pre & post & Hev).
  pose proof (hasInactivity_lapsed old last (t 0%nat) Hlast Hgt) as Hlapsed.
  destruct (lapse_run m w pre post old Hnet Hev Hdistinct Hres Hlapsed Hafter
              Hlt Hwin Hgap) as (Hstep & _ & _ & Hretry).
  set (closed := applyPatch
                   (patch_resource (inactivityPatch host this old (t 0%nat)))
                   (t 1%nat) old) in *.
  set (fresh := startedEvent host this (freshId (pre ++ closed :: post))
                  (t 2%nat) (t 3%nat)) in *.
  exists pre, post, closed.
  exists (applyPatch
            (patch_resource
               (activityPatch host this fresh (t 4%nat) (tz_guess host) m))
            (t 5%nat) fresh).
  split; [exact Hev | ].
  split.
  { rewrite Hstep, Hretry. now rewrite <- app_assoc. }
  split; [reflexivity | ]. split; [reflexivity | ].
  split.
  { change (ev_description closed) with
      (Some (addToDescription host (t 0%nat) reason (ev_description old))).
    now rewrite addToDescription_line. }
  split.
  { intros y Hy.
    change (ev_id y <> freshId (pre ++ closed :: post)).
    assert (Hids : map ev_id (pre ++ closed :: post) = map ev_id (events w)).
    { rewrite Hev, !map_app. reflexivity. }
    unfold freshId. rewrite Hids. now apply freshId_differs. }
  split; [reflexivity | ].
  change (Some (addToDescription host (t 4%nat) m
                  (Some (addToDescription host (t 2%nat) started None)))
          = Some (joinLines [activityLine host (t 2%nat) started;
                             activityLine host (t 4%nat) m])).
  f_equal. rewrite addToDescription_first.
  rewrite addToDescription_next by apply activityLine_not_empty.
  reflexivity.
Qed.


(** C2: [logStart(); logActivity(m1); logActivity(m2); logEnd()] with no
    inactivity detected on the way: each step resolves, the calendar holds its
    former events and one event for the session, the same one throughout,
    open-marked after each of the first three steps and marked ['true'] after
    [logEnd]; its final description is the four lines of the start, of [m1],
    of [m2] and of the conclusion, in that order. *)
Theorem one_event_per_session (m1 m2 : string) (fuel1 fuel2 : nat) (w : World) :
  let t := reading host w in
  let started := getLogName this (activityStarted (strings this)) in
  let concluded := getLogName this (activityConcluded (strings this)) in
  (forall k, (k < 7)%nat -> net host (k + requests w) = None) ->
  noOpenAfter (t 0%nat) (events w) = true ->
  t 2%nat - t 1%nat <= msUntilInactivity this ->
  t 4%nat - t 3%nat <= msUntilInactivity this ->
  t 6%nat - t 5%nat <= msUntilInactivity this ->
  t 0%nat < t 2%nat -> t 0%nat < t 4%nat -> t 0%nat < t 6%nat ->
  t 2%nat - lookback < t 0%nat + 1000 ->
  t 4%nat - lookback < t 2%nat ->
  t 6%nat - lookback < t 4%nat ->
  exists e1 e2 e3 e4 : Event,
    logStart host this w = (Resolved tt, advance 2 1 (events w ++ [e1]) w)
    /\ logActivity host this (S fuel1) m1 (advance 2 1 (events w ++ [e1]) w)
       = (Resolved tt, advance 4 3 (events w ++ [e2]) w)
    /\ logActivity host this (S fuel2) m2 (advance 4 3 (events w ++ [e2]) w)
       = (Resolved tt, advance 6 5 (events w ++ [e3]) w)
    /\ logEnd host this (advance 6 5 (events w ++ [e3]) w)
       = (Resolved tt, advance 8 7 (events w ++ [e4]) w)
    /\ (forall y, In y (events w) -> ev_id y <> ev_id e1)
    /\ (ev_id e2 = ev_id e1 /\ ev_id e3 = ev_id e1 /\ ev_id e4 = ev_id e1)
    /\ (markerOf e1 = Some "false" /\ markerOf e2 = Some "false"
        /\ markerOf e3 = Some "false" /\ markerOf e4 = Some "true")
    /\ ev_description e4
       = Some (joinLines [activityLine host (t 0%nat) started;
                          activityLine host (t 2%nat) m1;
                          activityLine host (t 4%nat) m2;
                          activityLine host (t 6%nat) concluded]).
Proof.
  intros t started concluded Hnet Hafter Hgap1 Hgap2 Hgap3
    Hlt2 Hlt4 Hlt6 Hwin2 Hwin4 Hwin6.
  set (tz := tz_guess host).
  set (e1 := startedEvent host this (freshId (events w)) (t 0%nat) (t 1%nat)).
  set (e2 := applyPatch (patch_resource (activityPatch host this e1 (t 2%nat) tz m1))
               (t 3%nat) e1).
  set (e3 := applyPatch (patch_resource (activityPatch host this e2 (t 4%nat) tz m2))
               (t 5%nat) e2).
  set (e4 := applyPatch (patch_resource (concludePatch host this e3 (t 6%nat) tz))
               (t 7%nat) e3).
  assert (Hids : forall y, In y (events w) -> ev_id y <> freshId (events w))
    by apply freshId_differs.
  exists e1, e2, e3, e4.
  split; [ | split; [ | split; [ | split]]].
  - apply logStart_run. apply (net_served w 7 0 Hnet). lia.
  - apply (logActivity_on_newest host this fuel1 m1
             (advance 2 1 (events w ++ [e1]) w) (events w) e1).
    + reflexivity.
    + apply (net_served w 7 1 Hnet). lia.
    + apply (net_served w 7 2 Hnet). lia.
    + reflexivity.
    + exact Hids.
    + exact Hafter.
    + apply inWindow_intro.
      * change (t 2%nat - lookback < t 0%nat + 1000). exact Hwin2.
      * exact Hlt2.
    + apply (hasInactivity_within e1 (t 1%nat)); [reflexivity | exact Hgap1].
  - apply (logActivity_on_newest host this fuel2 m2
             (advance 4 3 (events w ++ [e2]) w) (events w) e2).
    + reflexivity.
    + apply (net_served w 7 3 Hnet). lia.
    + apply (net_served w 7 4 Hnet). lia.
    + reflexivity.
    + exact Hids.
    + exact Hafter.
    + apply inWindow_intro.
      * change (t 4%nat - lookback < t 2%nat). exact Hwin4.
      * exact Hlt4.
    + apply (hasInactivity_within e2 (t 3%nat)); [reflexivity | exact Hgap2].
  - apply (logEnd_on_newest host this
             (advance 6 5 (events w ++ [e3]) w) (events w) e3).
    + reflexivity.
    + apply (net_served w 7 5 Hnet). lia.
    + apply (net_served w 7 6 Hnet). lia.
    + reflexivity.
    + exact Hids.
    + exact Hafter.
    + apply inWindow_intro.
      * change (t 6%nat - lookback < t 4%nat). exact Hwin6.
      * exact Hlt6.
    + apply (hasInactivity_within e3 (t 5%nat)); [reflexivity | exact Hgap3].
  - split; [exact Hids | ].
    split; [repeat split | ].
    split; [repeat split | ].
    change (ev_description e4) with
      (Some (addToDescription host (t 6%nat) concluded
               (Some (addToDescription host (t 4%nat) m2
                        (Some (addToDescription host (t 2%nat) m1
                                 (Some (addToDescription host (t 0%nat) started None)))))))).
    f_equal.
    rewrite addToDescription_first.
    rewrite (addToDescription_next (t 2%nat)) by apply activityLine_not_empty.
    rewrite (addToDescription_next (t 4%nat))
      by apply append_not_empty, activityLine_not_empty.
    rewrite (addToDescription_next (t 6%nat))
      by apply append_not_empty, append_not_empty, activityLine_not_empty.
    cbn [joinLines]. now rewrite !append_assoc.
Qed.

End Sessions.

(* ================================================================= *)
(** ** The theorems at the sample run *)

(** The code at a garbled timestamp: no error, the boolean [false], and the
    report built on it resolves by patching the event as if it were fresh. *)
Lemma garbled_timestamp_answers_false :
  hasInactivity Sample.logger Sample.garbled 1700000000000 = false
  /\ fst (logActivity Sample.steady Sample.logger 1 "edit A" Sample.garbledCalendar)
     = Resolved tt.
Proof. split; reflexivity. Qed.

Lemma hasInactivity_unparsable_is_false_witness :
  timeOf (orElse (ev_updated Sample.garbled) (ev_created Sample.garbled)) = NaN
  /\ hasInactivity Sample.logger Sample.garbled 1800000000000 = false.
Proof.
  split; [reflexivity | ].
  apply (hasInactivity_unparsable_is_false Sample.logger Sample.garbled 1800000000000).
  reflexivity.
Defined.


Lemma addToDescription_appends_one_line_witness :
  noNewline "edit A" = true
  /\ addToDescription Sample.steady 1700000000000 "edit A"
       (Some "23:10 – Started working on proj")
     = "23:10 – Started working on proj" +++ LF +++ "23:13 – edit A"
  /\ messageOfLine
       (lastLine (addToDescription Sample.steady 1700000000000 "edit A"
                    (Some "23:10 – Started working on proj")))
     = "edit A".
Proof.
  pose proof (addToDescription_appends_one_line Sample.steady 1700000000000
                "edit A" "23:10 – Started working on proj" eq_refl)
    as (Hresult & _ & _ & Hmessage & _).
  split; [reflexivity | ]. split; [exact Hresult | exact Hmessage].
Defined.

Lemma resolver_picks_latest_open_witness :
  ascendingByStart Sample.twoOpen = true
  /\ (2 <= List.length (filter openMarked Sample.twoOpen))%nat
  /\ exists e,
       ev_id e = 2%nat
       /\ latestIncompleteOf None Sample.twoOpen = Resolved e
       /\ getLatestIncompleteLogEvent Sample.steady Sample.logger 5000
            "Europe/Amsterdam" Sample.twoOpenCalendar
          = (Resolved e, advance 0 1 Sample.twoOpen Sample.twoOpenCalendar).
Proof.
  split; [reflexivity | ]. split; [vm_compute; lia | ].
  destruct (resolver_picks_latest_open Sample.steady Sample.logger Sample.twoOpen)
    as (before & e & after & _ & _ & _ & _ & Hres & _ & Hrun);
    [reflexivity | vm_compute; lia | ].
  exists e. split; [ | split; [exact Hres | ]].
  - change (latestIncompleteOf None Sample.twoOpen)
      with (Resolved (A := Event)
              (Sample.withMarker 2 2000 (completedProperty "false"))) in Hres.
    inversion Hres. reflexivity.
  - apply (Hrun 5000 Sample.twoOpenCalendar); reflexivity.
Defined.

Lemma no_open_session_is_rejected_witness :
  net Sample.steady (requests Sample.closedCalendar) = None
  /\ logActivity Sample.steady Sample.logger 1 "edit A" Sample.closedCalendar
     = (Rejected (JSError "No latest incomplete event found in the past 7 days."),
        advance 1 1 (events Sample.closedCalendar) Sample.closedCalendar)
  /\ logEnd Sample.steady Sample.logger Sample.closedCalendar
     = (Rejected (JSError "No latest incomplete event found in the past 7 days."),
        advance 1 1 (events Sample.closedCalendar) Sample.closedCalendar).
Proof.
  pose proof (no_open_session_is_rejected Sample.steady Sample.logger 0 "edit A"
                Sample.closedCalendar eq_refl eq_refl)
    as (_ & _ & _ & Hactivity & Hend).
  split; [reflexivity | ]. split; [exact Hactivity | exact Hend].
Defined.

Lemma one_event_per_session_witness :
  msUntilInactivity Sample.logger = 600000
  /\ noOpenAfter (reading Sample.steady Sample.emptyCalendar 0)
       (events Sample.emptyCalendar) = true
  /\ exists e1 e2 e3 e4 : Event,
       logStart Sample.steady Sample.logger Sample.emptyCalendar
       = (Resolved tt, advance 2 1 [e1] Sample.emptyCalendar)
       /\ logActivity Sample.steady Sample.logger 1 "edit A"
            (advance 2 1 [e1] Sample.emptyCalendar)
          = (Resolved tt, advance 4 3 [e2] Sample.emptyCalendar)
       /\ logActivity Sample.steady Sample.logger 1 "edit B"
            (advance 4 3 [e2] Sample.emptyCalendar)
          = (Resolved tt, advance 6 5 [e3] Sample.emptyCalendar)
       /\ logEnd Sample.steady Sample.logger (advance 6 5 [e3] Sample.emptyCalendar)
          = (Resolved tt, advance 8 7 [e4] Sample.emptyCalendar)
       /\ markerOf e3 = Some "false"
       /\ markerOf e4 = Some "true"
       /\ ev_description e4
          = Some ("23:13 – Started working on proj" +++ LF
                  +++ "23:15 – edit A" +++ LF
                  +++ "23:17 – edit B" +++ LF
                  +++ "23:19 – Worked on proj").
Proof.
  split; [reflexivity | ]. split; [reflexivity | ].
  destruct (one_event_per_session Sample.steady Sample.logger "edit A" "edit B" 0 0
              Sample.emptyCalendar)
    as (e1 & e2 & e3 & e4 & H1 & H2 & H3 & H4 & _ & _ & (_ & _ & Hm3 & Hm4) & Hd);
    [intros k _; reflexivity | evaluated .. | ].
  exists e1, e2, e3, e4. repeat split; assumption.
Defined.

Lemma lapse_closes_and_starts_anew_witness :
  lastActivityOf Sample.stale = Some 1700000001000
  /\ reading Sample.paused Sample.afterStart 0 - 1700000001000
     > msUntilInactivity Sample.logger
  /\ exists closed fresh : Event,
       logActivity Sample.paused Sample.logger 2 "edit B" Sample.afterStart
       = (Resolved tt, advance 6 5 [closed; fresh] Sample.afterStart)
       /\ ev_id closed = 1%nat
       /\ ev_id fresh <> 1%nat
       /\ markerOf closed = Some "true"
       /\ markerOf fresh = Some "false"
       /\ ev_description closed
          = Some ("23:13 – Started working on proj" +++ LF
                  +++ "23:24 – Worked on proj (closed due to inactivity)")
       /\ ev_description fresh
          = Some ("23:24 – Started working on proj" +++ LF +++ "23:24 – edit B").
Proof.
  split; [reflexivity | ]. split; [reflexivity | ].
  destruct (lapse_closes_and_starts_anew Sample.paused Sample.logger "edit B" 0
              Sample.afterStart Sample.stale 1700000001000)
    as (pre & post & closed & fresh & Hev & Hrun & Hid & Hmc & Hdc & Hnew & Hmf & Hdf);
    [intros k _; reflexivity | evaluated .. | ].
  destruct pre as [| x pre].
  - cbn [app] in Hev. inversion Hev as [Hpost]. subst post.
    exists closed, fresh. cbn [app] in Hrun.
    repeat split; try assumption.
    apply not_eq_sym. apply (Hnew Sample.stale). now left.
  - exfalso. inversion Hev as [[Hx Hrest]].
    destruct pre; discriminate.
Defined.


(* ================================================================= *)
(** ** Further properties of the log methods *)

Section LogMethods.

Variable host : Host.
Variable this : Logger.

(** With distinct identifiers, the event a request names is patched where it
    stands. *)
Lemma patched_in_place (p : PatchParams) (stamp : Z) (l : list Event) (old : Event) :
  distinctIds l = true ->
  In old l ->
  patch_eventId p = ev_id old ->
  exists pre post,
    l = pre ++ old :: post
    /\ map (patchWhere p stamp) l
       = pre ++ applyPatch (patch_resource p) stamp old :: post.
Proof.
  intros Hd Hin Hid.
  destruct (in_split old l Hin) as (pre & post & Hl).
  exists pre, post. split; [exact Hl | ].
  rewrite Hl. apply patchWhere_split; [now rewrite <- Hl | exact Hid].
Qed.

(** X1: [hasInactivity] is monotone in the current time: once an event has
    lapsed it stays lapsed at every later time. *)
Theorem hasInactivity_monotone (e : Event) (now later : Z) :
  now <= later ->
  hasInactivity this e now = true ->
  hasInactivity this e later = true.
Proof.
  intros Hle. unfold hasInactivity.
  destruct (timeOf (orElse (ev_updated e) (ev_created e))) as [| last];
    cbn [minus greaterThan]; [discriminate | ].
  rewrite !Z.gtb_ltb. intros H. apply Z.ltb_lt in H. apply Z.ltb_lt. lia.
Qed.

(** X2: [logStart] does not look at the calendar: whenever its request is
    served it appends one event and changes no other: open-marked, with a
    new identifier, starting at the current time and ending one second
    later, its description the start line.  The number of open-marked events
    grows by one, also when a session is open already. *)
Theorem logStart_always_opens (w : World) :
  net host (requests w) = None ->
  let now := reading host w 0 in
  let started := getLogName this (activityStarted (strings this)) in
  exists e : Event,
    logStart host this w = (Resolved tt, advance 2 1 (events w ++ [e]) w)
    /\ (forall y, In y (events w) -> ev_id y <> ev_id e)
    /\ markerOf e = Some "false"
    /\ ev_start e = {| dateTime := now; timeZone := tz_guess host |}
    /\ ev_end e = {| dateTime := now + 1000; timeZone := tz_guess host |}
    /\ ev_summary e = Some started
    /\ ev_description e = Some (activityLine host now started)
    /\ List.length (filter openMarked (events w ++ [e]))
       = S (List.length (filter openMarked (events w))).
Proof.
  intros Hnet now started.
  exists (startedEvent host this (freshId (events w)) now (reading host w 1)).
  split; [now apply logStart_run | ].
  split; [apply freshId_differs | ].
  do 4 (split; [reflexivity | ]).
  split.
  - cbn [ev_description startedEvent newEvent insert_resource startParams description].
    now rewrite addToDescription_first.
  - rewrite filter_app, length_app. cbn. lia.
Qed.

(** X3: a report that finds the open session not lapsed patches that event
    where it stands: its end moves to the time of the report, its start,
    identifier and creation stamp stay, the marker stays ['false'], one line
    is appended to the description; no event is added and no other event
    changes. *)
Theorem logActivity_extends_open_session (fuel : nat) (m : string) (w : World)
    (old : Event) :
  net host (requests w) = None ->
  net host (1 + requests w) = None ->
  distinctIds (events w) = true ->
  latestIncompleteOf None (shown this host (reading host w 0) (events w))
  = Resolved old ->
  hasInactivity this old (reading host w 0) = false ->
  exists (pre post : list Event) (extended : Event),
    events w = pre ++ old :: post
    /\ logActivity host this (S fuel) m w
       = (Resolved tt, advance 2 2 (pre ++ extended :: post) w)
    /\ ev_id extended = ev_id old
    /\ ev_start extended = ev_start old
    /\ ev_created extended = ev_created old
    /\ ev_end extended
       = {| dateTime := reading host w 0; timeZone := tz_guess host |}
    /\ ev_updated extended = Some (Instant (reading host w 1))
    /\ markerOf extended = Some "false"
    /\ ev_summary extended = Some (getLogName this (activityInProgress (strings this)))
    /\ ev_description extended
       = Some ((match ev_description old with
                | None | Some "" => ""
                | Some prior => prior +++ LF
                end) +++ activityLine host (reading host w 0) m).
Proof.
  intros Hnet0 Hnet1 Hd Hres Hfresh.
  destruct (resolved_in_calendar host this _ _ _ Hres) as [Hin _].
  set (p := activityPatch host this old (reading host w 0) (tz_guess host) m).
  destruct (patched_in_place p (reading host w 1) (events w) old Hd Hin eq_refl)
    as (pre & post & Hev & Hmap).
  exists pre, post, (applyPatch (patch_resource p) (reading host w 1) old).
  split; [exact Hev | ].
  split.
  { rewrite (logActivity_patches host this fuel m w old Hnet0 Hnet1 Hres Hfresh).
    fold p. now rewrite Hmap. }
  do 7 (split; [reflexivity | ]).
  cbn [ev_description applyPatch patch_resource p activityPatch description].
  now rewrite addToDescription_line.
Qed.

(** X4: [logEnd] on an open session that has not lapsed patches that event
    where it stands: marker ['true'], the concluded title as summary, its
    line appended, the end moved to the current time; start, identifier and
    every other event are as before. *)
Theorem logEnd_concludes_open_session (w : World) (old : Event) :
  net host (requests w) = None ->
  net host (1 + requests w) = None ->
  distinctIds (events w) = true ->
  latestIncompleteOf None (shown this host (reading host w 0) (events w))
  = Resolved old ->
  hasInactivity this old (reading host w 0) = false ->
  let concluded := getLogName this (activityConcluded (strings this)) in
  exists (pre post : list Event) (closed : Event),
    events w = pre ++ old :: post
    /\ logEnd host this w = (Resolved tt, advance 2 2 (pre ++ closed :: post) w)
    /\ ev_id closed = ev_id old
    /\ ev_start closed = ev_start old
    /\ ev_end closed = {| dateTime := reading host w 0; timeZone := tz_guess host |}
    /\ markerOf closed = Some "true"
    /\ ev_summary closed = Some concluded
    /\ ev_description closed
       = Some ((match ev_description old with
                | None | Some "" => ""
                | Some prior => prior +++ LF
                end) +++ activityLine host (reading host w 0) concluded).
Proof.
  intros Hnet0 Hnet1 Hd Hres Hfresh concluded.
  destruct (resolved_in_calendar host this _ _ _ Hres) as [Hin _].
  set (p := concludePatch host this old (reading host w 0) (tz_guess host)).
  destruct (patched_in_place p (reading host w 1) (events w) old Hd Hin eq_refl)
    as (pre & post & Hev & Hmap).
  exists pre, post, (applyPatch (patch_resource p) (reading host w 1) old).
  split; [exact Hev | ].
  split.
  { rewrite (logEnd_concludes host this w old Hnet0 Hnet1 Hres Hfresh).
    fold p. now rewrite Hmap. }
  do 5 (split; [reflexivity | ]).
  cbn [ev_description applyPatch patch_resource p concludePatch description].
  now rewrite addToDescription_line.
Qed.

(** X5: [logEnd] on an open session that has lapsed closes it for
    inactivity and starts nothing new: the event gets the marker ['true'],
    the concluded title and the inactivity line; its end stays where the
    last activity left it, and the calendar has as many events as before. *)
Theorem logEnd_lapsed_closes_without_restart (w : World) (old : Event) :
  net host (requests w) = None ->
  net host (1 + requests w) = None ->
  distinctIds (events w) = true ->
  latestIncompleteOf None (shown this host (reading host w 0) (events w))
  = Resolved old ->
  hasInactivity this old (reading host w 0) = true ->
  let concluded := getLogName this (activityConcluded (strings this)) in
  let reason :=
    concluded +++ " " +++ getLogName this (closedDueToInactivity (strings this)) in
  exists (pre post : list Event) (closed : Event),
    events w = pre ++ old :: post
    /\ logEnd host this w = (Resolved tt, advance 2 2 (pre ++ closed :: post) w)
    /\ ev_id closed = ev_id old
    /\ ev_start closed = ev_start old
    /\ ev_end closed = ev_end old
    /\ markerOf closed = Some "true"
    /\ ev_summary closed = Some concluded
    /\ ev_description closed
       = Some ((match ev_description old with
                | None | Some "" => ""
                | Some prior => prior +++ LF
                end) +++ activityLine host (reading host w 0) reason).
Proof.
  intros Hnet0 Hnet1 Hd Hres Hlapsed concluded reason.
  destruct (resolved_in_calendar host this _ _ _ Hres) as [Hin _].
  set (p := inactivityPatch host this old (reading host w 0)).
  destruct (patched_in_place p (reading host w 1) (events w) old Hd Hin eq_refl)
    as (pre & post & Hev & Hmap).
  exists pre, post, (applyPatch (patch_resource p) (reading host w 1) old).
  split; [exact Hev | ].
  split.
  { unfold logEnd.
    rewrite (await_resolved _ _ _ _ _ (getCurrentTime_run host w)).
    rewrite (await_resolved _ _ (advance 1 0 (events w) w)
               (advance 1 1 (events w) w) old).
    2:{ rewrite getLatestIncompleteLogEvent_run by exact Hnet0.
        cbn [events advance]. rewrite Hres. reflexivity. }
    rewrite Hlapsed.
    rewrite (logEndDueToInactivity_run host this old (reading host w 0)
               (advance 1 1 (events w) w) Hnet1 Hin).
    cbn [events advance]. fold p.
    change (reading host (advance 1 1 (events w) w) 0) with (reading host w 1).
    now rewrite Hmap. }
  do 5 (split; [reflexivity | ]).
  cbn [ev_description applyPatch patch_resource p inactivityPatch description].
  now rewrite addToDescription_line.
Qed.

Lemma events_patch_failed (p : PatchParams) (w : World) (err : string) :
  net host (requests w) = Some err ->
  events_patch host p w = (Resolved (Some err, None), advance 0 1 (events w) w).
Proof. intros H. unfold events_patch. now rewrite H. Qed.

Lemma events_insert_failed (p : InsertParams) (w : World) (err : string) :
  net host (requests w) = Some err ->
  events_insert host p w = (Resolved (Some err, None), advance 0 1 (events w) w).
Proof. intros H. unfold events_insert. now rewrite H. Qed.

Lemma getLatestIncompleteLogEvent_failed (currentTime : Z) (timeZone : string)
    (w : World) (err : string) :
  net host (requests w) = Some err ->
  getLatestIncompleteLogEvent host this currentTime timeZone w
  = (Rejected (ApiError err), advance 0 1 (events w) w).
Proof.
  intros H. unfold getLatestIncompleteLogEvent, await, events_list.
  now rewrite H.
Qed.

Lemma logStart_failed (w : World) (err : string) :
  net host (requests w) = Some err ->
  logStart host this w = (Rejected (ApiError err), advance 1 1 (events w) w).
Proof.
  intros H. unfold logStart.
  rewrite (await_resolved _ _ _ _ _ (getCurrentTime_run host w)).
  rewrite (await_resolved _ _ _ _ _
             (events_insert_failed _ (advance 1 0 (events w) w) err H)).
  reflexivity.
Qed.

(** X6: when the first request of a log method fails, the method rejects
    with the error of the API as it is, and the calendar is as it was. *)
Theorem first_request_error_is_passed_on (fuel : nat) (m : string) (w : World)
    (err : string) :
  net host (requests w) = Some err ->
  logStart host this w = (Rejected (ApiError err), advance 1 1 (events w) w)
  /\ logActivity host this (S fuel) m w
     = (Rejected (ApiError err), advance 1 1 (events w) w)
  /\ logEnd host this w = (Rejected (ApiError err), advance 1 1 (events w) w).
Proof.
  intros H. split; [now apply logStart_failed | ].
  split.
  - cbn [logActivity].
    rewrite (await_resolved _ _ _ _ _ (getCurrentTime_run host w)).
    apply await_rejected.
    now rewrite (getLatestIncompleteLogEvent_failed _ _ _ err).
  - unfold logEnd.
    rewrite (await_resolved _ _ _ _ _ (getCurrentTime_run host w)).
    apply await_rejected.
    now rewrite (getLatestIncompleteLogEvent_failed _ _ _ err).
Qed.

Lemma found_then (w : World) (old : Event) {B} (k : Event -> Async B) :
  net host (requests w) = None ->
  latestIncompleteOf None (shown this host (reading host w 0) (events w))
  = Resolved old ->
  await (getLatestIncompleteLogEvent host this (reading host w 0) (tz_guess host)) k
    (advance 1 0 (events w) w)
  = k old (advance 1 1 (events w) w).
Proof.
  intros Hnet Hres. apply await_resolved.
  rewrite getLatestIncompleteLogEvent_run by exact Hnet.
  cbn [events advance]. now rewrite Hres.
Qed.

(** X7: when the listing is served and the patch that follows fails, be it
    the patch of a report, of a conclusion or of a close for inactivity, the
    method rejects with the error of the API and no event has changed. *)
Theorem patch_error_is_passed_on (fuel : nat) (m : string) (w : World)
    (old : Event) (err : string) :
  net host (requests w) = None ->
  net host (1 + requests w) = Some err ->
  latestIncompleteOf None (shown this host (reading host w 0) (events w))
  = Resolved old ->
  logActivity host this (S fuel) m w
  = (Rejected (ApiError err), advance 1 2 (events w) w)
  /\ logEnd host this w = (Rejected (ApiError err), advance 1 2 (events w) w).
Proof.
  intros Hnet0 Hnet1 Hres.
  assert (Hclose : forall t,
             logEndDueToInactivity host this old t (advance 1 1 (events w) w)
             = (Rejected (ApiError err), advance 1 2 (events w) w)).
  { intros t. unfold logEndDueToInactivity.
    rewrite (await_resolved _ _ _ _ _
               (events_patch_failed _ (advance 1 1 (events w) w) err Hnet1)).
    reflexivity. }
  split.
  - cbn [logActivity].
    rewrite (await_resolved _ _ _ _ _ (getCurrentTime_run host w)).
    rewrite (found_then w old _ Hnet0 Hres).
    destruct (hasInactivity this old (reading host w 0)).
    + apply await_rejected, Hclose.
    + rewrite (await_resolved _ _ _ _ _
                 (events_patch_failed _ (advance 1 1 (events w) w) err Hnet1)).
      reflexivity.
  - unfold logEnd.
    rewrite (await_resolved _ _ _ _ _ (getCurrentTime_run host w)).
    rewrite (found_then w old _ Hnet0 Hres).
    destruct (hasInactivity this old (reading host w 0)).
    + apply Hclose.
    + rewrite (await_resolved _ _ _ _ _
                 (events_patch_failed _ (advance 1 1 (events w) w) err Hnet1)).
      reflexivity.
Qed.

(** X8: a lapse report whose close is served and whose new start fails
    rejects with the error of the API; the stale event stays closed and no
    event is added, so when it was the only open-marked event the calendar
    is left without an open session and the next report or conclusion is
    rejected as having nothing to work on. *)
Theorem failed_restart_leaves_no_session (fuel fuel' : nat) (m m' : string)
    (w : World) (old : Event) (err : string) :
  net host (requests w) = None ->
  net host (1 + requests w) = None ->
  net host (2 + requests w) = Some err ->
  net host (3 + requests w) = None ->
  distinctIds (events w) = true ->
  latestIncompleteOf None (shown this host (reading host w 0) (events w))
  = Resolved old ->
  hasInactivity this old (reading host w 0) = true ->
  List.length (filter openMarked (events w)) = 1%nat ->
  exists (pre post : list Event) (closed : Event) (notFound : string),
    events w = pre ++ old :: post
    /\ logActivity host this (S fuel) m w
       = (Rejected (ApiError err), advance 3 3 (pre ++ closed :: post) w)
    /\ ev_id closed = ev_id old
    /\ markerOf closed = Some "true"
    /\ filter openMarked (pre ++ closed :: post) = []
    /\ logActivity host this (S fuel') m' (advance 3 3 (pre ++ closed :: post) w)
       = (Rejected (JSError notFound), advance 4 4 (pre ++ closed :: post) w)
    /\ logEnd host this (advance 3 3 (pre ++ closed :: post) w)
       = (Rejected (JSError notFound), advance 4 4 (pre ++ closed :: post) w).
Proof.
  intros Hnet0 Hnet1 Hnet2 Hnet3 Hd Hres Hlapsed Hone.
  destruct (resolved_in_calendar host this _ _ _ Hres) as [Hin Hopen].
  set (p := inactivityPatch host this old (reading host w 0)).
  destruct (patched_in_place p (reading host w 1) (events w) old Hd Hin eq_refl)
    as (pre & post & Hev & Hmap).
  set (closed := applyPatch (patch_resource p) (reading host w 1) old) in *.
  assert (Hnone : filter openMarked (pre ++ closed :: post) = []).
  { rewrite Hev in Hone. rewrite filter_app in Hone |- *.
    cbn [filter] in Hone |- *. rewrite Hopen in Hone.
    change (openMarked closed) with false. cbn iota.
    rewrite length_app in Hone. cbn [List.length] in Hone.
    destruct (filter openMarked pre); [ | cbn in Hone; lia].
    destruct (filter openMarked post); [reflexivity | cbn in Hone; lia]. }
  assert (Hclosed : forallb (fun e => negb (openMarked e))
                      (shown this host (reading host w 3) (pre ++ closed :: post))
                    = true).
  { apply forallb_forall. intros y Hy. apply In_listing in Hy as [Hy _].
    destruct (openMarked y) eqn:E; [ | reflexivity].
    assert (Hf : In y (filter openMarked (pre ++ closed :: post)))
      by (apply filter_In; now split).
    rewrite Hnone in Hf. destruct Hf. }
  pose proof (latestIncompleteOf_none_open _ Hclosed) as Hrej.
  eexists pre, post, closed, _.
  split; [exact Hev | ].
  split.
  { cbn [logActivity].
    rewrite (await_resolved _ _ _ _ _ (getCurrentTime_run host w)).
    rewrite (found_then w old _ Hnet0 Hres).
    rewrite Hlapsed.
    rewrite (await_resolved _ _ _ _ _
               (logEndDueToInactivity_run host this old (reading host w 0)
                  (advance 1 1 (events w) w) Hnet1 Hin)).
    apply await_rejected.
    cbn [events advance]. fold p.
    change (reading host (advance 1 1 (events w) w) 0) with (reading host w 1).
    rewrite Hmap.
    exact (logStart_failed (advance 2 2 (pre ++ closed :: post) w) err Hnet2). }
  split; [reflexivity | ]. split; [reflexivity | ].
  split; [exact Hnone | ].
  split.
  - apply (logActivity_rejected host this fuel' m'
             (advance 3 3 (pre ++ closed :: post) w)); [exact Hnet3 | exact Hrej].
  - apply (logEnd_rejected host this (advance 3 3 (pre ++ closed :: post) w));
      [exact Hnet3 | exact Hrej].
Qed.

Lemma keepsEvents_refl (l : list Event) : keepsEvents l l.
Proof. exists l, []. rewrite app_nil_r. repeat split. Qed.

Lemma keepsEvents_trans (l1 l2 l3 : list Event) :
  keepsEvents l1 l2 -> keepsEvents l2 l3 -> keepsEvents l1 l3.
Proof.
  intros (k1 & m1 & H2 & Hid1 & Hst1 & Hcr1) (k2 & m2 & H3 & Hid2 & Hst2 & Hcr2).
  subst l2 l3.
  assert (Hlen : List.length k2 = List.length (k1 ++ m1)).
  { rewrite <- (length_map ev_id k2), Hid2. apply length_map. }
  exists (firstn (List.length k1) k2), (skipn (List.length k1) k2 ++ m2).
  rewrite app_assoc, firstn_skipn. split; [reflexivity | ].
  assert (Hk1 : List.length k1 = List.length l1).
  { rewrite <- (length_map ev_id k1), Hid1. apply length_map. }
  rewrite <- !firstn_map.
  rewrite Hid2, Hst2, Hcr2, !map_app, Hid1, Hst1, Hcr1.
  repeat split.
  - rewrite Hk1, <- (length_map ev_id l1), firstn_app, Nat.sub_diag, firstn_all.
    cbn [firstn]. apply app_nil_r.
  - rewrite Hk1, <- (length_map ev_start l1), firstn_app, Nat.sub_diag, firstn_all.
    cbn [firstn]. apply app_nil_r.
  - rewrite Hk1, <- (length_map ev_created l1), firstn_app, Nat.sub_diag, firstn_all.
    cbn [firstn]. apply app_nil_r.
Qed.

Lemma patchWhere_keeps (p : PatchParams) (stamp : Z) (l : list Event) :
  start (patch_resource p) = None ->
  keepsEvents l (map (patchWhere p stamp) l).
Proof.
  intros Hs. exists (map (patchWhere p stamp) l), [].
  rewrite app_nil_r. split; [reflexivity | ].
  rewrite !map_map. repeat split; apply map_ext; intros x; unfold patchWhere;
    destruct (Nat.eqb (ev_id x) (patch_eventId p)); try reflexivity.
  unfold applyPatch. cbn [ev_start]. now rewrite Hs.
Qed.

Lemma evolves_keeps (l l' : list Event) : evolves l l' -> keepsEvents l l'.
Proof.
  induction 1 as [l | l l' p stamp old _ _ _ Hs _ IH | l l' e _ _ IH].
  - apply keepsEvents_refl.
  - apply (keepsEvents_trans _ (map (patchWhere p stamp) l)); [ | exact IH].
    now apply patchWhere_keeps.
  - apply (keepsEvents_trans _ (l ++ [e])); [ | exact IH].
    exists l, [e]. repeat split.
Qed.

Lemma evolves_trans (l1 l2 l3 : list Event) :
  evolves l1 l2 -> evolves l2 l3 -> evolves l1 l3.
Proof.
  induction 1 as [l | l l' p stamp old Hin Ho Hid Hs _ IH | l l' e Hnew _ IH];
    intros H23.
  - exact H23.
  - exact (evolves_patch l l3 p stamp old Hin Ho Hid Hs (IH H23)).
  - exact (evolves_insert l l3 e Hnew (IH H23)).
Qed.

(** Awaiting a promise and going on: what holds of the calendar when the
    promise settles and, once it resolves, of the rest. *)
Lemma await_evolves {A B} (p : Async A) (k : A -> Async B) (w : World)
    (l0 : list Event) :
  evolves l0 (events (snd (p w))) ->
  (forall a w', p w = (Resolved a, w') -> evolves l0 (events (snd (k a w')))) ->
  evolves l0 (events (snd (await p k w))).
Proof.
  intros Hp Hk. unfold await.
  destruct (p w) as [[a | reason | message | ] w'] eqn:E; cbn [snd] in *;
    [now apply Hk | exact Hp ..].
Qed.

Lemma events_patch_evolves (p : PatchParams) (w : World) (old : Event) :
  In old (events w) ->
  openMarked old = true ->
  patch_eventId p = ev_id old ->
  start (patch_resource p) = None ->
  evolves (events w) (events (snd (events_patch host p w))).
Proof.
  intros Hin Hopen Hid Hs. unfold events_patch.
  destruct (net host (requests w)); [apply evolves_done | ].
  destruct (findById (patch_eventId p) (events w)); [ | apply evolves_done].
  cbn [snd events stored].
  apply (evolves_patch _ _ p (clock host (ticks w)) old Hin Hopen Hid Hs).
  apply evolves_done.
Qed.

Lemma events_insert_evolves (p : InsertParams) (w : World) :
  evolves (events w) (events (snd (events_insert host p w))).
Proof.
  unfold events_insert.
  destruct (net host (requests w)); [apply evolves_done | ].
  destruct (start (insert_resource p)) as [s | ]; [ | apply evolves_done].
  destruct (end_ (insert_resource p)) as [e | ]; [ | apply evolves_done].
  cbn [snd events stored].
  apply (evolves_insert _ _
           (newEvent (freshId (events w)) (insert_resource p) s e
              (clock host (ticks w)))).
  - apply freshId_differs.
  - apply evolves_done.
Qed.

(** Handing the API's answer to the callback of a request changes nothing
    more. *)
Lemma callback_settles {R} (p : Async (option string * R)) (w : World) :
  events (snd (await p
                 (fun x => match x with
                           | (err, response) =>
                               match err with
                               | Some err => reject (ApiError err)
                               | None => resolve tt
                               end
                           end) w))
  = events (snd (p w)).
Proof.
  unfold await.
  destruct (p w) as [[[[err | ] response] | reason | message | ] w'];
    reflexivity.
Qed.

Lemma logStart_evolves (w : World) :
  evolves (events w) (events (snd (logStart host this w))).
Proof.
  unfold logStart. apply await_evolves; [apply evolves_done | ].
  intros [startTime timeZone] w' E.
  rewrite getCurrentTime_run in E. inversion E; subst. clear E.
  cbn beta iota. rewrite callback_settles. apply (events_insert_evolves _ (advance 1 0 (events w) w)).
Qed.

Lemma getLatestIncompleteLogEvent_outcome (currentTime : Z) (timeZone : string)
    (w : World) :
  events (snd (getLatestIncompleteLogEvent host this currentTime timeZone w))
  = events w
  /\ forall old w',
       getLatestIncompleteLogEvent host this currentTime timeZone w
       = (Resolved old, w') ->
       events w' = events w /\ In old (events w) /\ openMarked old = true.
Proof.
  unfold getLatestIncompleteLogEvent, await, events_list.
  destruct (net host (requests w)); cbn [settle snd]; [split; [reflexivity | ] | ].
  - intros old w' E. discriminate.
  - split; [reflexivity | ]. intros old w' E. inversion E as [[Hres Hw]].
    change (latestIncompleteOf None
              (listing (listParams this currentTime timeZone) (events w))
            = Resolved old) in Hres.
    apply latestIncompleteOf_resolved in Hres as (_ & Hin & Hopen).
    apply In_listing in Hin as [Hin _]. now repeat split.
Qed.

Lemma logEndDueToInactivity_evolves (old : Event) (activityTime : Z) (w : World) :
  In old (events w) ->
  openMarked old = true ->
  evolves (events w)
    (events (snd (logEndDueToInactivity host this old activityTime w))).
Proof.
  intros Hin Hopen. unfold logEndDueToInactivity.
  rewrite callback_settles. now apply (events_patch_evolves _ w old).
Qed.

Lemma snd_of {A} (p : Async A) (w w' : World) (o : Outcome A) :
  p w = (o, w') -> snd (p w) = w'.
Proof. intros E. now rewrite E. Qed.

Lemma logActivity_evolves (fuel : nat) (m : string) (w : World) :
  evolves (events w) (events (snd (logActivity host this fuel m w))).
Proof.
  revert w. induction fuel as [| fuel IH]; intros w; [apply evolves_done | ].
  cbn [logActivity]. apply await_evolves; [apply evolves_done | ].
  intros [activityTime timeZone] w1 E1.
  rewrite getCurrentTime_run in E1. inversion E1; subst. clear E1.
  cbn beta iota.
  set (w1 := advance 1 0 (events w) w).
  change (events w) with (events w1).
  destruct (getLatestIncompleteLogEvent_outcome (reading host w 0) (tz_guess host) w1)
    as [Hsame Hfound].
  apply await_evolves; [rewrite Hsame; apply evolves_done | ].
  intros old w2 E2. destruct (Hfound old w2 E2) as (Hev2 & Hin & Hopen).
  rewrite <- Hev2 in Hin |- *.
  destruct (hasInactivity this old (reading host w 0)).
  - pose proof (logEndDueToInactivity_evolves old (reading host w 0) w2 Hin Hopen)
      as Hclose.
    apply await_evolves; [exact Hclose | ].
    intros [] w3 E3. rewrite (snd_of _ _ _ _ E3) in Hclose.
    pose proof (logStart_evolves w3) as Hstart.
    apply await_evolves; [exact (evolves_trans _ _ _ Hclose Hstart) | ].
    intros [] w4 E4. rewrite (snd_of _ _ _ _ E4) in Hstart.
    exact (evolves_trans _ _ _ Hclose (evolves_trans _ _ _ Hstart (IH w4))).
  - rewrite callback_settles. now apply (events_patch_evolves _ w2 old).
Qed.

Lemma logEnd_evolves (w : World) :
  evolves (events w) (events (snd (logEnd host this w))).
Proof.
  unfold logEnd. apply await_evolves; [apply evolves_done | ].
  intros [endTime timeZone] w1 E1.
  rewrite getCurrentTime_run in E1. inversion E1; subst. clear E1.
  cbn beta iota.
  set (w1 := advance 1 0 (events w) w).
  change (events w) with (events w1).
  destruct (getLatestIncompleteLogEvent_outcome (reading host w 0) (tz_guess host) w1)
    as [Hsame Hfound].
  apply await_evolves; [rewrite Hsame; apply evolves_done | ].
  intros old w2 E2. destruct (Hfound old w2 E2) as (Hev2 & Hin & Hopen).
  rewrite <- Hev2 in Hin |- *.
  destruct (hasInactivity this old (reading host w 0)).
  - now apply logEndDueToInactivity_evolves.
  - rewrite callback_settles. now apply (events_patch_evolves _ w2 old).
Qed.

(** X9: the log methods never remove an event, whatever the calendar, the
    clock and the network do: after [logStart], [logActivity] or [logEnd],
    resolved or not, every event that was in the calendar is still in its
    place with the identifier, the start and the creation stamp it had; all
    they may add comes behind. *)
Theorem log_methods_keep_events (fuel : nat) (m : string) (w : World) :
  keepsEvents (events w) (events (snd (logStart host this w)))
  /\ keepsEvents (events w) (events (snd (logActivity host this fuel m w)))
  /\ keepsEvents (events w) (events (snd (logEnd host this w))).
Proof.
  split; [ | split]; apply evolves_keeps.
  - apply logStart_evolves.
  - apply logActivity_evolves.
  - apply logEnd_evolves.
Qed.

Lemma distinctIds_NoDup (l : list Event) :
  distinctIds l = true <-> NoDup (map ev_id l).
Proof.
  induction l as [| e l IH]; cbn [distinctIds map].
  - split; [constructor | reflexivity].
  - rewrite andb_true_iff, IH, NoDup_cons_iff, forallb_forall.
    split; intros [Hhead Hrest]; (split; [ | exact Hrest]).
    + intros Hin. apply in_map_iff in Hin as (x & Hx & Hin).
      specialize (Hhead x Hin). apply negb_true_iff, Nat.eqb_neq in Hhead.
      contradiction.
    + intros x Hx. apply negb_true_iff, Nat.eqb_neq. intros Heq.
      apply Hhead. rewrite <- Heq. now apply in_map.
Qed.

Lemma same_id_same_event (l : list Event) (a b : Event) :
  NoDup (map ev_id l) -> In a l -> In b l -> ev_id a = ev_id b -> a = b.
Proof.
  induction l as [| e l IH]; intros Hnd Ha Hb Hid; [destruct Ha | ].
  cbn [map] in Hnd. apply NoDup_cons_iff in Hnd as [Hnotin Hnd].
  destruct Ha as [-> | Ha], Hb as [-> | Hb]; [reflexivity | | | now apply IH].
  - exfalso. apply Hnotin. rewrite Hid. now apply in_map.
  - exfalso. apply Hnotin. rewrite <- Hid. now apply in_map.
Qed.

Lemma evolves_spares_closed (l l' : list Event) :
  evolves l l' ->
  distinctIds l = true ->
  distinctIds l' = true /\ closedUntouched l l'.
Proof.
  induction 1 as [l | l l' p stamp old Hin Hopen Hid Hs _ IH | l l' e Hnew _ IH];
    intros Hd.
  - split; [exact Hd | ]. intros i e He _. exact He.
  - assert (Hd1 : distinctIds (map (patchWhere p stamp) l) = true).
    { apply distinctIds_NoDup. rewrite patchWhere_ids. now apply distinctIds_NoDup. }
    destruct (IH Hd1) as [Hd' Hrest]. split; [exact Hd' | ].
    intros i e He Hclosed. apply Hrest; [ | exact Hclosed].
    rewrite nth_error_map, He. cbn [option_map]. f_equal.
    unfold patchWhere. destruct (Nat.eqb (ev_id e) (patch_eventId p)) eqn:E;
      [ | reflexivity].
    apply Nat.eqb_eq in E. rewrite Hid in E.
    apply nth_error_In in He. apply distinctIds_NoDup in Hd.
    rewrite (same_id_same_event l e old Hd He Hin E) in Hclosed. congruence.
  - assert (Hd1 : distinctIds (l ++ [e]) = true).
    { apply distinctIds_NoDup. rewrite map_app. cbn [map].
      apply distinctIds_NoDup in Hd.
      apply NoDup_app; [exact Hd | constructor; [intros [] | constructor] | ].
      intros x Hx [<- | []]. apply in_map_iff in Hx as (y & Hy & Hyin).
      now apply (Hnew y Hyin). }
    destruct (IH Hd1) as [Hd' Hrest]. split; [exact Hd' | ].
    intros i x Hx Hclosed. apply Hrest; [ | exact Hclosed].
    rewrite nth_error_app1; [exact Hx | ].
    apply nth_error_Some. now rewrite Hx.
Qed.

(** X10: the log methods change only open-marked events: in a calendar
    with distinct identifiers, every event that is not open-marked is, after
    [logStart], [logActivity] or [logEnd], resolved or not, in its place and
    exactly as it was, and the identifiers are still distinct.  A closed
    event is never reopened, extended or relabelled. *)
Theorem log_methods_spare_closed_events (fuel : nat) (m : string) (w : World) :
  distinctIds (events w) = true ->
  (distinctIds (events (snd (logStart host this w))) = true
   /\ closedUntouched (events w) (events (snd (logStart host this w))))
  /\ (distinctIds (events (snd (logActivity host this fuel m w))) = true
      /\ closedUntouched (events w) (events (snd (logActivity host this fuel m w))))
  /\ (distinctIds (events (snd (logEnd host this w))) = true
      /\ closedUntouched (events w) (events (snd (logEnd host this w)))).
Proof.
  intros Hd. split; [ | split]; apply evolves_spares_closed; try exact Hd.
  - apply logStart_evolves.
  - apply logActivity_evolves.
  - apply logEnd_evolves.
Qed.

(** X11: the lookback bounds what a session can be continued from: when
    every event of the calendar ended seven days or more before the current
    time (or starts at it or later), a report and a conclusion are both
    rejected with the error for an empty listing, open-marked events or not,
    and the calendar is as it was. *)
Theorem nothing_in_window_is_rejected (fuel : nat) (m : string) (w : World) :
  net host (requests w) = None ->
  noneInWindow (reading host w 0) (events w) = true ->
  logActivity host this (S fuel) m w
  = (Rejected (JSError "Found no events in the past 7 days."),
     advance 1 1 (events w) w)
  /\ logEnd host this w
     = (Rejected (JSError "Found no events in the past 7 days."),
        advance 1 1 (events w) w).
Proof.
  intros Hnet Hnone.
  assert (Hshown : shown this host (reading host w 0) (events w) = []).
  { unfold shown, listing.
    replace (filter _ (events w)) with (@nil Event); [reflexivity | ].
    symmetry. unfold noneInWindow in Hnone.
    induction (events w) as [| e l IH]; [reflexivity | ].
    cbn [forallb filter] in Hnone |- *. apply andb_prop in Hnone as [He Hl].
    rewrite (IH Hl).
    replace (inWindow _ _ e) with false; [reflexivity | ].
    symmetry. unfold inWindow. cbn [timeMin timeMax listParams].
    fold lookback. apply orb_prop in He as [He | He].
    - apply Z.leb_le in He. apply andb_false_iff. left. apply Z.ltb_ge. exact He.
    - apply Z.leb_le in He. apply andb_false_iff. right. apply Z.ltb_ge. exact He. }
  split.
  - apply logActivity_rejected; [exact Hnet | now rewrite Hshown].
  - apply logEnd_rejected; [exact Hnet | now rewrite Hshown].
Qed.

(** X12: [logStart] twice, then [logEnd]: the conclusion closes the event
    of the second start and leaves the event of the first open-marked, since
    only the latest open-marked event is ever looked for. *)
Theorem second_start_orphans_the_first (w : World) :
  let t := reading host w in
  (forall k, (k < 4)%nat -> net host (k + requests w) = None) ->
  noOpenAfter (t 2%nat) (events w) = true ->
  t 0%nat <= t 2%nat ->
  t 2%nat < t 4%nat ->
  t 4%nat - lookback < t 2%nat + 1000 ->
  t 4%nat - t 3%nat <= msUntilInactivity this ->
  exists first second closed : Event,
    logStart host this w = (Resolved tt, advance 2 1 (events w ++ [first]) w)
    /\ logStart host this (advance 2 1 (events w ++ [first]) w)
       = (Resolved tt, advance 4 2 (events w ++ [first; second]) w)
    /\ logEnd host this (advance 4 2 (events w ++ [first; second]) w)
       = (Resolved tt, advance 6 4 (events w ++ [first; closed]) w)
    /\ ev_id first <> ev_id second
    /\ ev_id closed = ev_id second
    /\ markerOf closed = Some "true"
    /\ markerOf first = Some "false".
Proof.
  intros t Hnet Hafter Hle Hlt Hwin Hgap.
  set (first := startedEvent host this (freshId (events w)) (t 0%nat) (t 1%nat)).
  set (second := startedEvent host this (freshId (events w ++ [first]))
                   (t 2%nat) (t 3%nat)).
  exists first, second.
  exists (applyPatch
            (patch_resource (concludePatch host this second (t 4%nat) (tz_guess host)))
            (t 5%nat) second).
  split; [apply logStart_run; apply (net_served host w 4 0 Hnet); lia | ].
  split.
  { rewrite (logStart_run host this (advance 2 1 (events w ++ [first]) w)).
    - cbn [events advance]. now rewrite <- app_assoc.
    - apply (net_served host w 4 1 Hnet). lia. }
  split.
  { replace (events w ++ [first; second]) with ((events w ++ [first]) ++ [second])
      by now rewrite <- app_assoc.
    replace (events w ++ [first; _]) with ((events w ++ [first]) ++ [
      applyPatch
        (patch_resource (concludePatch host this second (t 4%nat) (tz_guess host)))
        (t 5%nat) second]) by now rewrite <- app_assoc.
    apply (logEnd_on_newest host this
             (advance 4 2 ((events w ++ [first]) ++ [second]) w)
             (events w ++ [first]) second).
    - reflexivity.
    - apply (net_served host w 4 2 Hnet). lia.
    - apply (net_served host w 4 3 Hnet). lia.
    - reflexivity.
    - apply freshId_differs.
    - rewrite noOpenAfter_app. change (startOf second) with (t 2%nat).
      rewrite Hafter. unfold noOpenAfter. cbn [forallb andb].
      change (startOf first) with (t 0%nat).
      rewrite andb_true_r. apply orb_true_iff. right. now apply Z.leb_le.
    - apply inWindow_intro; [exact Hwin | exact Hlt].
    - apply (hasInactivity_within this second (t 3%nat)); [reflexivity | exact Hgap]. }
  split.
  { apply (freshId_differs (events w ++ [first]) first).
    apply in_or_app. right. now left. }
  repeat split.
Qed.

Lemma joinLines_absorb (d a : string) (ls : list string) :
  joinLines (d :: a :: ls) = joinLines ((d +++ LF +++ a) :: ls).
Proof.
  destruct ls as [| b ls]; [reflexivity | ].
  cbn [joinLines]. now rewrite !append_assoc.
Qed.

(** Reports in a row on the session inserted last, none of them finding it
    lapsed: each patches that one event. *)
Lemma reports_on_newest (fuel : nat) (w : World) (l : list Event)
    (messages : list string) :
  forall (k : nat) (x : Event) (stamp : Z) (d : string),
    openMarked x = true ->
    (forall y, In y l -> ev_id y <> ev_id x) ->
    noOpenAfter (startOf x) l = true ->
    ev_updated x = Some (Instant stamp) ->
    ev_description x = Some d ->
    d <> "" ->
    unbroken host this w (startOf x) k stamp (endOf x) (List.length messages) = true ->
    exists (x' : Event) (w' : World),
      logActivities host this (S fuel) messages (advance k k (l ++ [x]) w)
      = (Resolved tt, w')
      /\ events w' = l ++ [x']
      /\ ticks w' = (2 * List.length messages + k + ticks w)%nat
      /\ requests w' = (2 * List.length messages + k + requests w)%nat
      /\ ev_id x' = ev_id x
      /\ ev_start x' = ev_start x
      /\ openMarked x' = true
      /\ ev_description x' = Some (joinLines (d :: reportLines host w k messages)).
Proof.
  induction messages as [| m rest IH]; intros k x stamp d Hopen Hids Hafter Hst Hd Hne Hrun.
  - exists x, (advance k k (l ++ [x]) w). repeat split; assumption.
  - cbn [List.length unbroken] in Hrun.
    destruct (net host (k + requests w)) eqn:Hnet0; [discriminate | ].
    destruct (net host (S k + requests w)) eqn:Hnet1; [discriminate | ].
    apply andb_prop in Hrun as [Hrun Hrest].
    apply andb_prop in Hrun as [Hrun Hgap].
    apply andb_prop in Hrun as [Hlt Hwin].
    apply Z.ltb_lt in Hlt, Hwin. apply Z.leb_le in Hgap.
    set (wk := advance k k (l ++ [x]) w).
    set (x1 := applyPatch
                 (patch_resource
                    (activityPatch host this x (reading host wk 0) (tz_guess host) m))
                 (reading host wk 1) x).
    assert (Hstep : logActivity host this (S fuel) m wk
                    = (Resolved tt, advance (2 + k) (2 + k) (l ++ [x1]) w)).
    { apply (logActivity_on_newest host this fuel m wk l x); trivial.
      - now apply inWindow_intro.
      - now apply (hasInactivity_within this x stamp). }
    destruct (IH (2 + k)%nat x1 (reading host w (S k))
                (d +++ LF +++ activityLine host (reading host w k) m))
      as (x' & w' & Hrunall & Hev & Hticks & Hreqs & Hid & Hstart & Hopen' & Hdesc);
      trivial.
    + cbn [ev_description x1 applyPatch patch_resource activityPatch description].
      f_equal. rewrite Hd. now apply addToDescription_next.
    + now apply append_not_empty.
    + exists x', w'. cbn [logActivities].
      rewrite (await_resolved _ _ _ _ _ Hstep).
      split; [exact Hrunall | ]. split; [exact Hev | ].
      split; [rewrite Hticks; cbn [List.length]; lia | ].
      split; [rewrite Hreqs; cbn [List.length]; lia | ].
      split; [exact Hid | ]. split; [exact Hstart | ]. split; [exact Hopen' | ].
      rewrite Hdesc. cbn [reportLines]. now rewrite joinLines_absorb.
Qed.

(** X13: the description of a session is an append-only log: any number of
    reports in a row that find the session inserted last open and not lapsed
    all go to that one event, leave it open-marked with its identifier and
    start, and its description is then the description it had followed, line
    feed by line feed, by one line per report in the order of the reports. *)
Theorem reports_accumulate_in_order (fuel : nat) (messages : list string)
    (w : World) (l : list Event) (x : Event) (stamp : Z) (d : string) :
  events w = l ++ [x] ->
  distinctIds (events w) = true ->
  openMarked x = true ->
  noOpenAfter (startOf x) l = true ->
  ev_updated x = Some (Instant stamp) ->
  ev_description x = Some d ->
  d <> "" ->
  unbroken host this w (startOf x) 0 stamp (endOf x) (List.length messages) = true ->
  exists (x' : Event) (w' : World),
    logActivities host this (S fuel) messages w = (Resolved tt, w')
    /\ events w' = l ++ [x']
    /\ ev_id x' = ev_id x
    /\ ev_start x' = ev_start x
    /\ markerOf x' = Some "false"
    /\ ev_description x' = Some (joinLines (d :: reportLines host w 0 messages)).
Proof.
  intros Hev Hd Hopen Hafter Hst Hdesc Hne Hrun.
  assert (Hids : forall y, In y l -> ev_id y <> ev_id x).
  { rewrite Hev in Hd. now apply (distinctIds_split l [] x). }
  destruct (reports_on_newest fuel w l messages 0 x stamp d
              Hopen Hids Hafter Hst Hdesc Hne Hrun)
    as (x' & w' & Hrunall & Hev' & _ & _ & Hid & Hstart & Hopen' & Hdesc').
  exists x', w'.
  replace (advance 0 0 (l ++ [x]) w) with w in Hrunall
    by (destruct w; cbn in Hev; now subst).
  repeat split; try assumption.
  now apply openMarked_marker.
Qed.

End LogMethods.

(* ================================================================= *)
(** ** Construction *)

Section Construction.

Lemma setRequired_spec (option : string) (value : JSVal) :
  match setRequired option value with
  | Normal s => value = JSStr s /\ s <> "" /\ nonEmptyString value = true
  | Throw message => message = missingOption option /\ nonEmptyString value = false
  end.
Proof.
  unfold setRequired, nonEmptyString, missingOption.
  destruct value as [ | | b | n | s | items | props]; try (split; reflexivity).
  destruct (String.eqb s "") eqn:E; cbn [negb].
  - split; reflexivity.
  - apply String.eqb_neq in E. repeat split. exact E.
Qed.

(** X14: the constructor demands its three required options: it returns an
    instance exactly when [credentialsPath], [tokenPath] and [calendar] are
    non-empty strings, which it stores as given; otherwise it throws the
    error naming the first of them, in that order, that is missing, empty or
    not a string, whatever the other options are. *)
Theorem construct_checks_required_options (o : Options) :
  match construct (Some o) with
  | Normal s =>
      opt_credentialsPath o = JSStr (set_credentialsPath s)
      /\ opt_tokenPath o = JSStr (set_tokenPath s)
      /\ opt_calendar o = JSStr (set_calendarSummary s)
      /\ set_credentialsPath s <> "" /\ set_tokenPath s <> ""
      /\ set_calendarSummary s <> ""
  | Throw message =>
      (nonEmptyString (opt_credentialsPath o) = false
       /\ message = missingOption "credentialsPath")
      \/ (nonEmptyString (opt_credentialsPath o) = true
          /\ nonEmptyString (opt_tokenPath o) = false
          /\ message = missingOption "tokenPath")
      \/ (nonEmptyString (opt_credentialsPath o) = true
          /\ nonEmptyString (opt_tokenPath o) = true
          /\ nonEmptyString (opt_calendar o) = false
          /\ message = missingOption "calendar")
  end.
Proof.
  unfold construct, setCredentialsPath, setTokenPath, setCalendarSummary.
  pose proof (setRequired_spec "credentialsPath" (opt_credentialsPath o)) as H1.
  pose proof (setRequired_spec "tokenPath" (opt_tokenPath o)) as H2.
  pose proof (setRequired_spec "calendar" (opt_calendar o)) as H3.
  destruct (setRequired "credentialsPath" (opt_credentialsPath o)) as [cp | m1];
    cbn [bindC]; [ | left; tauto].
  destruct (setRequired "tokenPath" (opt_tokenPath o)) as [tp | m2];
    cbn [bindC]; [ | right; left; tauto].
  destruct (setRequired "calendar" (opt_calendar o)) as [cal | m3];
    cbn [bindC]; [ | right; right; tauto].
  cbn. tauto.
Qed.

(** X15: the inactivity threshold of an instance is always positive: the
    option is taken when it is a number above zero, were it a fraction of a
    minute or infinite, and anything else (absent, zero, negative, [NaN], not
    a number) leaves the default of ten minutes.  Where the threshold is a
    whole number of minutes, so that the log methods above apply, an event is
    never found lapsed at or before the instant of its last change. *)
Theorem constructed_threshold_is_positive (o : Options) (s : Settings)
    (calendar : Calendar) :
  construct (Some o) = Normal s ->
  isPositive (set_minutesUntilInactivity s) = true
  /\ (forall x, opt_minutesUntilInactivity o = Some x -> isPositive x = true ->
                set_minutesUntilInactivity s = x)
  /\ ((forall x, opt_minutesUntilInactivity o = Some x -> isPositive x = false) ->
      set_minutesUntilInactivity s = Finite 10 1)
  /\ (forall logger,
        loggerOf (connected s calendar) = Some logger ->
        0 < msUntilInactivity logger
        /\ forall e last now,
             lastActivityOf e = Some last -> now <= last ->
             hasInactivity logger e now = false).
Proof.
  intros H. unfold construct in H.
  destruct (setCredentialsPath (opt_credentialsPath o)) as [cp | ]; [ | discriminate].
  destruct (setTokenPath (opt_tokenPath o)) as [tp | ]; [ | discriminate].
  destruct (setCalendarSummary (opt_calendar o)) as [cal | ]; [ | discriminate].
  cbn [bindC] in H. inversion H; subst s; clear H.
  cbn [set_minutesUntilInactivity].
  assert (Hpos : isPositive
                   (setMinutesUntilInactivity (opt_minutesUntilInactivity o)
                      (Finite 10 1)) = true).
  { unfold setMinutesUntilInactivity.
    destruct (opt_minutesUntilInactivity o) as [x | ]; [ | reflexivity].
    destruct (isPositive x) eqn:E; [exact E | reflexivity]. }
  split; [exact Hpos | ].
  split.
  { intros x Hx Hgt. rewrite Hx. unfold setMinutesUntilInactivity. now rewrite Hgt. }
  split.
  { intros Hnone. unfold setMinutesUntilInactivity.
    destruct (opt_minutesUntilInactivity o) as [x | ]; [ | reflexivity].
    now rewrite (Hnone x eq_refl). }
  intros logger Hlogger. unfold loggerOf, connected in Hlogger.
  cbn [inst_settings set_minutesUntilInactivity] in Hlogger.
  destruct (setMinutesUntilInactivity (opt_minutesUntilInactivity o) (Finite 10 1))
    as [numerator denominator | | | ]; cbn [wholeNumber] in Hlogger;
    try discriminate.
  destruct (numerator mod Z.pos denominator =? 0) eqn:Hwhole; [ | discriminate].
  inversion Hlogger; subst logger; clear Hlogger.
  cbn [isPositive] in Hpos. apply Z.gtb_lt in Hpos. apply Z.eqb_eq in Hwhole.
  assert (Hminutes : 0 < numerator / Z.pos denominator).
  { pose proof (Z.div_mod numerator (Z.pos denominator)) as Hdm.
    rewrite Hwhole in Hdm.
    assert (Hden : 0 < Z.pos denominator) by lia.
    specialize (Hdm ltac:(lia)). nia. }
  assert (Hms : 0 < msUntilInactivity
                      {| calendarSummary := cal;
                         calendarId := cal_id calendar;
                         minutesUntilInactivity := numerator / Z.pos denominator;
                         strings := setStringsOverrides (opt_strings o)
                                      getDefaultStrings |}).
  { unfold msUntilInactivity. cbn [minutesUntilInactivity]. lia. }
  split; [exact Hms | ].
  intros e last now Hlast Hle. unfold hasInactivity.
  rewrite (timeOf_lastActivity e last Hlast). cbn [minus greaterThan].
  rewrite Z.gtb_ltb. apply Z.ltb_ge. lia.
Qed.

Lemma assignString_started (s : Strings) (k : string) (v : LogName) :
  activityStarted (assignString s (k, v))
  = if String.eqb k "activityStarted" then v else activityStarted s.
Proof.
  unfold assignString.
  destruct (String.eqb k "activityStarted"); [reflexivity | ].
  repeat match goal with
         | |- context [String.eqb k ?key] => destruct (String.eqb k key)
         end; reflexivity.
Qed.

Lemma assignString_inProgress (s : Strings) (k : string) (v : LogName) :
  activityInProgress (assignString s (k, v))
  = if String.eqb k "activityInProgress" then v else activityInProgress s.
Proof.
  unfold assignString.
  destruct (String.eqb k "activityStarted") eqn:E1.
  - apply String.eqb_eq in E1. subst k. reflexivity.
  - destruct (String.eqb k "activityInProgress"); [reflexivity | ].
    repeat match goal with
           | |- context [String.eqb k ?key] => destruct (String.eqb k key)
           end; reflexivity.
Qed.

Lemma assignString_concluded (s : Strings) (k : string) (v : LogName) :
  activityConcluded (assignString s (k, v))
  = if String.eqb k "activityConcluded" then v else activityConcluded s.
Proof.
  unfold assignString.
  destruct (String.eqb k "activityStarted") eqn:E1;
    [apply String.eqb_eq in E1; subst k; reflexivity | ].
  destruct (String.eqb k "activityInProgress") eqn:E2;
    [apply String.eqb_eq in E2; subst k; reflexivity | ].
  destruct (String.eqb k "activityConcluded"); [reflexivity | ].
  repeat match goal with
         | |- context [String.eqb k ?key] => destruct (String.eqb k key)
         end; reflexivity.
Qed.

Lemma assignString_logged (s : Strings) (k : string) (v : LogName) :
  activityLogged (assignString s (k, v))
  = if String.eqb k "activityLogged" then v else activityLogged s.
Proof.
  unfold assignString.
  destruct (String.eqb k "activityStarted") eqn:E1;
    [apply String.eqb_eq in E1; subst k; reflexivity | ].
  destruct (String.eqb k "activityInProgress") eqn:E2;
    [apply String.eqb_eq in E2; subst k; reflexivity | ].
  destruct (String.eqb k "activityConcluded") eqn:E3;
    [apply String.eqb_eq in E3; subst k; reflexivity | ].
  destruct (String.eqb k "activityLogged"); [reflexivity | ].
  destruct (String.eqb k "closedDueToInactivity"); reflexivity.
Qed.

Lemma assignString_closed (s : Strings) (k : string) (v : LogName) :
  closedDueToInactivity (assignString s (k, v))
  = if String.eqb k "closedDueToInactivity" then v else closedDueToInactivity s.
Proof.
  unfold assignString.
  destruct (String.eqb k "activityStarted") eqn:E1;
    [apply String.eqb_eq in E1; subst k; reflexivity | ].
  destruct (String.eqb k "activityInProgress") eqn:E2;
    [apply String.eqb_eq in E2; subst k; reflexivity | ].
  destruct (String.eqb k "activityConcluded") eqn:E3;
    [apply String.eqb_eq in E3; subst k; reflexivity | ].
  destruct (String.eqb k "activityLogged") eqn:E4;
    [apply String.eqb_eq in E4; subst k; reflexivity | ].
  destruct (String.eqb k "closedDueToInactivity"); reflexivity.
Qed.

(** A field that an assignment sets for its key and otherwise keeps holds,
    after the assignments of a list of entries, what the last entry for the
    key gives, or what it held. *)
Lemma fold_assign (field : Strings -> LogName) (key : string) :
  (forall s k v, field (assignString s (k, v))
                 = if String.eqb k key then v else field s) ->
  forall entries s,
    field (fold_left assignString entries s) = overridden key entries (field s).
Proof.
  intros Hfield. unfold overridden.
  induction entries as [| [k v] rest IH]; intros s; [reflexivity | ].
  cbn [fold_left lastOverride]. rewrite IH, Hfield.
  destruct (lastOverride key rest); [reflexivity | ].
  destruct (String.eqb k key); reflexivity.
Qed.

(** X16: overrides take precedence over the default strings, entry by
    entry: after construction each of the titles the log methods use is what
    the last entry of [options.strings] for its key gives, or the default
    when no entry names it; a [strings] that is absent, [null], an array or a
    primitive leaves all defaults in place. *)
Theorem constructed_strings_follow_overrides (o : Options) (s : Settings) :
  construct (Some o) = Normal s ->
  (forall entries,
      opt_strings o = StringsObject entries ->
      activityStarted (set_strings s)
      = overridden "activityStarted" entries (activityStarted getDefaultStrings)
      /\ activityInProgress (set_strings s)
         = overridden "activityInProgress" entries
             (activityInProgress getDefaultStrings)
      /\ activityConcluded (set_strings s)
         = overridden "activityConcluded" entries
             (activityConcluded getDefaultStrings)
      /\ activityLogged (set_strings s)
         = overridden "activityLogged" entries (activityLogged getDefaultStrings)
      /\ closedDueToInactivity (set_strings s)
         = overridden "closedDueToInactivity" entries
             (closedDueToInactivity getDefaultStrings))
  /\ ((forall entries, opt_strings o <> StringsObject entries) ->
      set_strings s = getDefaultStrings).
Proof.
  intros H. unfold construct in H.
  destruct (setCredentialsPath (opt_credentialsPath o)); [ | discriminate].
  destruct (setTokenPath (opt_tokenPath o)); [ | discriminate].
  destruct (setCalendarSummary (opt_calendar o)); [ | discriminate].
  cbn [bindC] in H. inversion H; subst s; clear H.
  cbn [set_strings]. split.
  - intros entries Ho. rewrite Ho. cbn [setStringsOverrides].
    repeat split.
    + apply (fold_assign activityStarted), assignString_started.
    + apply (fold_assign activityInProgress), assignString_inProgress.
    + apply (fold_assign activityConcluded), assignString_concluded.
    + apply (fold_assign activityLogged), assignString_logged.
    + apply (fold_assign closedDueToInactivity), assignString_closed.
  - intros Hnone. destruct (opt_strings o) as [ | | | | entries]; try reflexivity.
    now destruct (Hnone entries).
Qed.

End Construction.

(* ================================================================= *)
(** ** Connection and authorization *)

Section Connecting.

Variable host : Host.
Variable newCalendarId : list Calendar -> string.

Lemma find_first_match (summary : string) (before after : list Calendar)
    (calendar : Calendar) :
  cal_summary calendar = summary ->
  (forall c, In c before -> cal_summary c <> summary) ->
  find (fun item => String.eqb (cal_summary item) summary)
    (before ++ calendar :: after)
  = Some calendar.
Proof.
  intros Hsum Hbefore. induction before as [| b before IH]; cbn [app find].
  - rewrite Hsum, String.eqb_refl. reflexivity.
  - replace (String.eqb (cal_summary b) summary) with false.
    + apply IH. intros c Hc. apply Hbefore. now right.
    + symmetry. apply String.eqb_neq. apply Hbefore. now left.
Qed.

Lemma find_no_match (summary : string) (l : list Calendar) :
  (forall c, In c l -> cal_summary c <> summary) ->
  find (fun item => String.eqb (cal_summary item) summary) l = None.
Proof.
  intros H. induction l as [| b l IH]; [reflexivity | ]. cbn [find].
  replace (String.eqb (cal_summary b) summary) with false.
  - apply IH. intros c Hc. apply H. now right.
  - symmetry. apply String.eqb_neq. apply H. now left.
Qed.

(** X17: when the account has a calendar with the logger's title, the
    connection resolves with the first such calendar of the list as the
    logger's calendar (its identifier becomes [this.calendarId]), after one
    request, and creates nothing, however many calendars share the title. *)
Theorem connection_takes_first_calendar {Auth} (a : Auth) (s : Settings)
    (acc : Account) (before after : list Calendar) (calendar : Calendar) :
  net host (acc_requests acc) = None ->
  calendars acc = before ++ calendar :: after ->
  cal_summary calendar = set_calendarSummary s ->
  (forall c, In c before -> cal_summary c <> set_calendarSummary s) ->
  initCalendarConnection host newCalendarId (Resolved a) s acc
  = (Resolved (connected s calendar),
     {| calendars := calendars acc; acc_requests := S (acc_requests acc) |})
  /\ inst_calendarId (connected s calendar) = cal_id calendar.
Proof.
  intros Hnet Hcals Hsum Hbefore. split; [ | reflexivity].
  unfold initCalendarConnection, getOrCreateCalendar.
  rewrite Hnet, Hcals.
  now rewrite (find_first_match _ before after calendar Hsum Hbefore).
Qed.

(** X18: on an account without a calendar of the logger's title, the first
    connection inserts one and then never resolves: the callback of the
    insert throws a ReferenceError before it can.  The calendar is there
    all the same, so the next connection finds it, resolves with it and
    inserts nothing. *)
Theorem first_connection_creates_and_hangs {Auth} (a : Auth) (s : Settings)
    (acc : Account) :
  net host (acc_requests acc) = None ->
  net host (1 + acc_requests acc) = None ->
  net host (2 + acc_requests acc) = None ->
  (forall c, In c (calendars acc) -> cal_summary c <> set_calendarSummary s) ->
  exists created : Calendar,
    let acc' := {| calendars := calendars acc ++ [created];
                   acc_requests := 2 + acc_requests acc |} in
    cal_summary created = set_calendarSummary s
    /\ initCalendarConnection host newCalendarId (Resolved a) s acc
       = (Uncaught "ReferenceError: calenderSummary is not defined", acc')
    /\ initCalendarConnection host newCalendarId (Resolved a) s acc'
       = (Resolved (connected s created),
          {| calendars := calendars acc ++ [created];
             acc_requests := 3 + acc_requests acc |}).
Proof.
  intros Hnet0 Hnet1 Hnet2 Hnone.
  exists {| cal_id := newCalendarId (calendars acc);
            cal_summary := set_calendarSummary s |}.
  cbn zeta. cbn [Nat.add] in Hnet1, Hnet2 |- *.
  split; [reflexivity | ]. split.
  - unfold initCalendarConnection, getOrCreateCalendar.
    rewrite Hnet0, (find_no_match _ _ Hnone), Hnet1. reflexivity.
  - unfold initCalendarConnection, getOrCreateCalendar.
    cbn [acc_requests calendars]. rewrite Hnet2.
    rewrite (find_first_match (set_calendarSummary s) (calendars acc) []
               {| cal_id := newCalendarId (calendars acc);
                  cal_summary := set_calendarSummary s |} eq_refl Hnone).
    reflexivity.
Qed.

End Connecting.

Section Authorizing.

Variable parse : string -> Completion JSVal.
Variable stringify : JSVal -> string.
Variable noSuchFile : string -> string.
Variable writeError : string -> option string.
Variable enteredCode : string.
Variable getToken : string -> string + JSVal.

Lemma fileAt_other (path other content : string) (disk : Disk) :
  other <> path ->
  fileAt path ((other, content) :: disk) = fileAt path disk.
Proof.
  intros Hne. cbn [fileAt].
  replace (String.eqb other path) with false; [reflexivity | ].
  symmetry. now apply String.eqb_neq.
Qed.

Lemma fileAt_written (path content : string) (disk : Disk) :
  fileAt path ((path, content) :: disk) = Some content.
Proof. cbn [fileAt]. now rewrite String.eqb_refl. Qed.

(** X19: [authorize] hands out the client only from a stored token: when
    its promise resolves with a client, the token file was there and parsed,
    the client carries exactly that token, and the disk is untouched.  After
    the flow that obtains a new token it resolves with [undefined]. *)
Theorem authorize_returns_client_only_from_stored_token
    (credentialsPath tokenPath : string) (disk disk' : Disk)
    (result : option OAuth2Client) :
  authorize parse stringify noSuchFile writeError enteredCode getToken
    credentialsPath tokenPath disk
  = (Resolved result, disk') ->
  (exists client content token,
      result = Some client
      /\ disk' = disk
      /\ fileAt tokenPath disk = Some content
      /\ parse content = Normal token
      /\ auth_credentials client = Some token)
  \/ (exists token,
        result = None
        /\ getToken enteredCode = inr token
        /\ disk' = (tokenPath, stringify token) :: disk
        /\ forall stored, readJSON parse noSuchFile tokenPath disk <> Resolved stored).
Proof.
  unfold authorize.
  destruct (readJSON parse noSuchFile credentialsPath disk) as [credentials | | | ];
    try discriminate.
  destruct (clientOf credentials) as [client | ]; [ | discriminate].
  destruct (readJSON parse noSuchFile tokenPath disk) as [token | reason | m | ] eqn:Etoken.
  - intros H. inversion H; subst. left.
    unfold readJSON in Etoken.
    destruct (fileAt tokenPath disk') as [content | ]; [ | discriminate].
    exists (setCredentials client token), content, token.
    repeat split. unfold thrown in Etoken.
    destruct (parse content); [now inversion Etoken | discriminate].
  - unfold getAccessToken. destruct (getToken enteredCode) as [err | token];
      [discriminate | ].
    destruct (writeError tokenPath); [discriminate | ].
    intros H. inversion H; subst. right. exists token.
    repeat split. intros stored. discriminate.
  - unfold getAccessToken. destruct (getToken enteredCode) as [err | token];
      [discriminate | ].
    destruct (writeError tokenPath); [discriminate | ].
    intros H. inversion H; subst. right. exists token.
    repeat split. intros stored. discriminate.
  - unfold getAccessToken. destruct (getToken enteredCode) as [err | token];
      [discriminate | ].
    destruct (writeError tokenPath); [discriminate | ].
    intros H. inversion H; subst. right. exists token.
    repeat split. intros stored. discriminate.
Qed.

(** X20: the token round trip: with credentials that load, no usable token
    on disk, a code the server accepts and a disk that can be written,
    [authorize] stores the token as JSON at the token path and resolves with
    [undefined]; called again on that disk (with [JSON.parse] undoing
    [JSON.stringify] on the token) it resolves with the client carrying the
    token, without a prompt and without another write. *)
Theorem authorize_stores_token_then_reuses_it
    (credentialsPath tokenPath : string) (disk : Disk)
    (credentials token : JSVal) (client : OAuth2Client) :
  credentialsPath <> tokenPath ->
  readJSON parse noSuchFile credentialsPath disk = Resolved credentials ->
  clientOf credentials = Normal client ->
  fileAt tokenPath disk = None ->
  getToken enteredCode = inr token ->
  writeError tokenPath = None ->
  parse (stringify token) = Normal token ->
  let disk' := (tokenPath, stringify token) :: disk in
  authorize parse stringify noSuchFile writeError enteredCode getToken
    credentialsPath tokenPath disk
  = (Resolved None, disk')
  /\ authorize parse stringify noSuchFile writeError enteredCode getToken
       credentialsPath tokenPath disk'
     = (Resolved (Some (setCredentials client token)), disk').
Proof.
  intros Hne Hcred Hclient Hnone Hcode Hwrite Hround disk'.
  split.
  - unfold authorize. rewrite Hcred, Hclient.
    unfold readJSON at 1. rewrite Hnone.
    unfold getAccessToken. now rewrite Hcode, Hwrite.
  - assert (Hcred' : readJSON parse noSuchFile credentialsPath disk'
                     = Resolved credentials).
    { unfold readJSON, disk' in *. rewrite fileAt_other by congruence. exact Hcred. }
    unfold authorize. rewrite Hcred', Hclient.
    unfold readJSON at 1. unfold disk'. rewrite fileAt_written, Hround.
    reflexivity.
Qed.

(** X21: credentials that cannot be loaded stop [authorize] at once: when
    the credentials file is missing, is not JSON or lacks the [installed]
    client data, the promise is rejected, nothing is written, and neither the
    token file nor the user is consulted. *)
Theorem authorize_stops_without_credentials
    (credentialsPath tokenPath : string) (disk : Disk) :
  (forall credentials,
      readJSON parse noSuchFile credentialsPath disk = Resolved credentials ->
      exists message, clientOf credentials = Throw message) ->
  exists reason,
    authorize parse stringify noSuchFile writeError enteredCode getToken
      credentialsPath tokenPath disk
    = (Rejected reason, disk)
    /\ (fileAt credentialsPath disk = None ->
        reason = ApiError (noSuchFile credentialsPath)).
Proof.
  intros Hbad. unfold authorize.
  assert (Hcases : forall m, readJSON parse noSuchFile credentialsPath disk
                             <> Uncaught m).
  { intros m. unfold readJSON, thrown.
    destruct (fileAt credentialsPath disk); [ | discriminate].
    destruct (parse s); discriminate. }
  assert (Hfuel : readJSON parse noSuchFile credentialsPath disk <> OutOfFuel).
  { unfold readJSON, thrown.
    destruct (fileAt credentialsPath disk); [ | discriminate].
    destruct (parse s); discriminate. }
  destruct (readJSON parse noSuchFile credentialsPath disk)
    as [credentials | reason | m | ] eqn:E.
  - destruct (Hbad credentials eq_refl) as (message & Hthrow). rewrite Hthrow.
    exists (JSError message). split; [reflexivity | ].
    intros Hnone. unfold readJSON in E. rewrite Hnone in E. discriminate.
  - exists reason. split; [reflexivity | ].
    intros Hnone. unfold readJSON in E. rewrite Hnone in E. now inversion E.
  - now destruct (Hcases m).
  - now destruct Hfuel.
Qed.

End Authorizing.

(* ================================================================= *)
(** ** The further properties at the samples *)

Lemma hasInactivity_monotone_witness :
  1700000601001 <= 1700000700000
  /\ hasInactivity Sample.logger Sample.stale 1700000601001 = true
  /\ hasInactivity Sample.logger Sample.stale 1700000700000 = true.
Proof.
  split; [evaluated | ]. split; [reflexivity | ].
  apply (hasInactivity_monotone Sample.logger Sample.stale
           1700000601001 1700000700000); [evaluated | reflexivity].
Defined.

Lemma logStart_always_opens_witness :
  List.length (filter openMarked (events Sample.afterStart)) = 1%nat
  /\ exists e : Event,
       logStart Sample.steady Sample.logger Sample.afterStart
       = (Resolved tt, advance 2 1 [Sample.stale; e] Sample.afterStart)
       /\ markerOf e = Some "false"
       /\ List.length (filter openMarked [Sample.stale; e]) = 2%nat.
Proof.
  split; [reflexivity | ].
  destruct (logStart_always_opens Sample.steady Sample.logger Sample.afterStart
              eq_refl)
    as (e & Hrun & _ & Hmarker & _ & _ & _ & _ & Hcount).
  exists e. split; [exact Hrun | ]. split; [exact Hmarker | exact Hcount].
Defined.

Lemma logActivity_extends_open_session_witness :
  hasInactivity Sample.logger Sample.stale
    (reading Sample.steady Sample.afterStart 0) = false
  /\ exists extended : Event,
       logActivity Sample.steady Sample.logger 1 "edit A" Sample.afterStart
       = (Resolved tt, advance 2 2 [extended] Sample.afterStart)
       /\ ev_start extended = ev_start Sample.stale
       /\ endOf extended = 1700000120000
       /\ markerOf extended = Some "false".
Proof.
  split; [reflexivity | ].
  destruct (logActivity_extends_open_session Sample.steady Sample.logger 0 "edit A"
              Sample.afterStart Sample.stale eq_refl eq_refl eq_refl eq_refl eq_refl)
    as (pre & post & extended & Hev & Hrun & _ & Hstart & _ & Hend & _ & Hmarker & _).
  destruct pre as [| x pre];
    [ | exfalso; inversion Hev as [[Hx Hrest]]; destruct pre; discriminate].
  inversion Hev as [Hpost]. subst post.
  exists extended. split; [exact Hrun | ]. split; [exact Hstart | ].
  split; [ | exact Hmarker]. unfold endOf. now rewrite Hend.
Defined.

Lemma logEnd_concludes_open_session_witness :
  hasInactivity Sample.logger Sample.stale
    (reading Sample.steady Sample.afterStart 0) = false
  /\ exists closed : Event,
       logEnd Sample.steady Sample.logger Sample.afterStart
       = (Resolved tt, advance 2 2 [closed] Sample.afterStart)
       /\ endOf closed = 1700000120000
       /\ markerOf closed = Some "true".
Proof.
  split; [reflexivity | ].
  destruct (logEnd_concludes_open_session Sample.steady Sample.logger
              Sample.afterStart Sample.stale eq_refl eq_refl eq_refl eq_refl eq_refl)
    as (pre & post & closed & Hev & Hrun & _ & _ & Hend & Hmarker & _).
  destruct pre as [| x pre];
    [ | exfalso; inversion Hev as [[Hx Hrest]]; destruct pre; discriminate].
  inversion Hev as [Hpost]. subst post.
  exists closed. split; [exact Hrun | ].
  split; [ | exact Hmarker]. unfold endOf. now rewrite Hend.
Defined.

Lemma logEnd_lapsed_closes_without_restart_witness :
  hasInactivity Sample.logger Sample.stale
    (reading Sample.paused Sample.afterStart 0) = true
  /\ exists closed : Event,
       logEnd Sample.paused Sample.logger Sample.afterStart
       = (Resolved tt, advance 2 2 [closed] Sample.afterStart)
       /\ ev_end closed = ev_end Sample.stale
       /\ markerOf closed = Some "true".
Proof.
  split; [reflexivity | ].
  destruct (logEnd_lapsed_closes_without_restart Sample.paused Sample.logger
              Sample.afterStart Sample.stale eq_refl eq_refl eq_refl eq_refl eq_refl)
    as (pre & post & closed & Hev & Hrun & _ & _ & Hend & Hmarker & _).
  destruct pre as [| x pre];
    [ | exfalso; inversion Hev as [[Hx Hrest]]; destruct pre; discriminate].
  inversion Hev as [Hpost]. subst post.
  exists closed. split; [exact Hrun | ]. split; [exact Hend | exact Hmarker].
Defined.

Lemma first_request_error_is_passed_on_witness :
  net Demo.offline (requests Sample.afterStart) = Some "ECONNRESET"
  /\ logStart Demo.offline Sample.logger Sample.afterStart
     = (Rejected (ApiError "ECONNRESET"), advance 1 1 [Sample.stale] Sample.afterStart)
  /\ logEnd Demo.offline Sample.logger Sample.afterStart
     = (Rejected (ApiError "ECONNRESET"), advance 1 1 [Sample.stale] Sample.afterStart).
Proof.
  split; [reflexivity | ].
  destruct (first_request_error_is_passed_on Demo.offline Sample.logger 0 "edit A"
              Sample.afterStart "ECONNRESET" eq_refl)
    as (Hstart & _ & Hend).
  split; [exact Hstart | exact Hend].
Defined.

Lemma patch_error_is_passed_on_witness :
  net (Demo.failingAt Sample.steady 2) (1 + requests Sample.afterStart) = Some "503"
  /\ logActivity (Demo.failingAt Sample.steady 2) Sample.logger 1 "edit A"
       Sample.afterStart
     = (Rejected (ApiError "503"), advance 1 2 [Sample.stale] Sample.afterStart).
Proof.
  split; [reflexivity | ].
  apply (patch_error_is_passed_on (Demo.failingAt Sample.steady 2) Sample.logger
           0 "edit A" Sample.afterStart Sample.stale "503"); reflexivity.
Defined.

Lemma failed_restart_leaves_no_session_witness :
  net (Demo.failingAt Sample.paused 3) (2 + requests Sample.afterStart) = Some "503"
  /\ exists (closed : Event) (notFound : string),
       logActivity (Demo.failingAt Sample.paused 3) Sample.logger 2 "edit B"
         Sample.afterStart
       = (Rejected (ApiError "503"), advance 3 3 [closed] Sample.afterStart)
       /\ markerOf closed = Some "true"
       /\ logEnd (Demo.failingAt Sample.paused 3) Sample.logger
            (advance 3 3 [closed] Sample.afterStart)
          = (Rejected (JSError notFound), advance 4 4 [closed] Sample.afterStart).
Proof.
  split; [reflexivity | ].
  destruct (failed_restart_leaves_no_session (Demo.failingAt Sample.paused 3)
              Sample.logger 1 0 "edit B" "edit C" Sample.afterStart Sample.stale "503"
              eq_refl eq_refl eq_refl eq_refl eq_refl eq_refl eq_refl eq_refl)
    as (pre & post & closed & notFound & Hev & Hrun & _ & Hmarker & _ & _ & Hend).
  destruct pre as [| x pre];
    [ | exfalso; inversion Hev as [[Hx Hrest]]; destruct pre; discriminate].
  inversion Hev as [Hpost]. subst post.
  exists closed, notFound.
  split; [exact Hrun | ]. split; [exact Hmarker | exact Hend].
Defined.

Lemma log_methods_spare_closed_events_witness :
  distinctIds (events Sample.twoOpenCalendar) = true
  /\ nth_error
       (events (snd (logEnd (Sample.hostWith (fun _ => 5000)) Sample.logger
                       Sample.twoOpenCalendar))) 2
     = Some (Sample.withMarker 3 3000 (completedProperty "true")).
Proof.
  split; [reflexivity | ].
  destruct (log_methods_spare_closed_events (Sample.hostWith (fun _ => 5000))
              Sample.logger 0 "edit A" Sample.twoOpenCalendar eq_refl)
    as (_ & _ & _ & Hend).
  apply (Hend 2%nat); reflexivity.
Defined.

Lemma nothing_in_window_is_rejected_witness :
  noneInWindow (reading Sample.steady Sample.twoOpenCalendar 0)
    (events Sample.twoOpenCalendar) = true
  /\ List.length (filter openMarked (events Sample.twoOpenCalendar)) = 2%nat
  /\ logActivity Sample.steady Sample.logger 1 "edit A" Sample.twoOpenCalendar
     = (Rejected (JSError "Found no events in the past 7 days."),
        advance 1 1 Sample.twoOpen Sample.twoOpenCalendar).
Proof.
  split; [reflexivity | ]. split; [reflexivity | ].
  apply (nothing_in_window_is_rejected Sample.steady Sample.logger 0 "edit A"
           Sample.twoOpenCalendar); reflexivity.
Defined.

Lemma second_start_orphans_the_first_witness :
  exists first second closed : Event,
    logEnd Sample.steady Sample.logger
      (advance 4 2 [first; second] Sample.emptyCalendar)
    = (Resolved tt, advance 6 4 [first; closed] Sample.emptyCalendar)
    /\ ev_id closed = ev_id second
    /\ markerOf closed = Some "true"
    /\ markerOf first = Some "false".
Proof.
  destruct (second_start_orphans_the_first Sample.steady Sample.logger
              Sample.emptyCalendar)
    as (first & second & closed & _ & _ & Hend & _ & Hid & Hclosed & Hfirst);
    [intros k _; reflexivity | evaluated .. | ].
  exists first, second, closed. repeat split; assumption.
Defined.

Lemma reports_accumulate_in_order_witness :
  unbroken Sample.steady Sample.logger Sample.afterStart (startOf Sample.stale) 0
    1700000001000 (endOf Sample.stale) 3 = true
  /\ exists (x' : Event) (w' : World),
       logActivities Sample.steady Sample.logger 1 ["edit A"; "edit B"; "edit C"]
         Sample.afterStart
       = (Resolved tt, w')
       /\ events w' = [x']
       /\ ev_description x'
          = Some ("23:13 – Started working on proj" +++ LF
                  +++ "23:15 – edit A" +++ LF
                  +++ "23:17 – edit B" +++ LF
                  +++ "23:19 – edit C").
Proof.
  split; [reflexivity | ].
  destruct (reports_accumulate_in_order Sample.steady Sample.logger 0
              ["edit A"; "edit B"; "edit C"] Sample.afterStart [] Sample.stale
              1700000001000 "23:13 – Started working on proj"
              eq_refl eq_refl eq_refl eq_refl eq_refl eq_refl)
    as (x' & w' & Hrun & Hev & _ & _ & _ & Hdesc);
    [discriminate | reflexivity | ].
  exists x', w'. split; [exact Hrun | ]. split; [exact Hev | exact Hdesc].
Defined.

Lemma constructed_threshold_is_positive_witness :
  construct (Some Demo.options) = Normal Demo.settings
  /\ set_minutesUntilInactivity Demo.settings = Finite 1 2
  /\ construct (Some (Demo.optionsWith (Some (Finite 0 1))))
     = Normal (Demo.settingsWith (Finite 10 1))
  /\ isPositive (set_minutesUntilInactivity (Demo.settingsWith (Finite 10 1))) = true.
Proof.
  split; [reflexivity | ].
  destruct (constructed_threshold_is_positive Demo.options Demo.settings
              (Demo.calendarNamed "c2" "proj") eq_refl)
    as (_ & Htaken & _ & _).
  split; [exact (Htaken (Finite 1 2) eq_refl eq_refl) | ].
  split; [reflexivity | ].
  destruct (constructed_threshold_is_positive
              (Demo.optionsWith (Some (Finite 0 1)))
              (Demo.settingsWith (Finite 10 1))
              (Demo.calendarNamed "c2" "proj") eq_refl)
    as (Hpositive & _).
  exact Hpositive.
Defined.

Lemma constructed_strings_follow_overrides_witness :
  construct (Some Demo.options) = Normal Demo.settings
  /\ activityStarted (set_strings Demo.settings)
     = overridden "activityStarted"
         [("activityStarted", Literal "Go"); ("unknown", Literal "ignored");
          ("activityStarted", Literal "Begin")]
         (activityStarted getDefaultStrings)
  /\ overridden "activityStarted"
       [("activityStarted", Literal "Go"); ("unknown", Literal "ignored");
        ("activityStarted", Literal "Begin")]
       (activityStarted getDefaultStrings)
     = Literal "Begin".
Proof.
  split; [reflexivity | ].
  destruct (constructed_strings_follow_overrides Demo.options Demo.settings eq_refl)
    as (Hover & _).
  destruct (Hover _ eq_refl) as (Hstarted & _).
  split; [exact Hstarted | reflexivity].
Defined.

Lemma connection_takes_first_calendar_witness :
  net Sample.steady (acc_requests Demo.account) = None
  /\ initCalendarConnection Sample.steady Demo.newId (Resolved tt) Demo.settings
       Demo.account
     = (Resolved (connected Demo.settings (Demo.calendarNamed "c2" "proj")),
        {| calendars := calendars Demo.account; acc_requests := 1 |}).
Proof.
  split; [reflexivity | ].
  apply (connection_takes_first_calendar Sample.steady Demo.newId tt Demo.settings
           Demo.account [Demo.calendarNamed "c1" "holidays"]
           [Demo.calendarNamed "c3" "proj"] (Demo.calendarNamed "c2" "proj"));
    try reflexivity.
  intros c [<- | []]. discriminate.
Defined.

Lemma first_connection_creates_and_hangs_witness :
  exists created : Calendar,
    cal_summary created = "proj"
    /\ initCalendarConnection Sample.steady Demo.newId (Resolved tt) Demo.settings
         Demo.freshAccount
       = (Uncaught "ReferenceError: calenderSummary is not defined",
          {| calendars := [Demo.calendarNamed "c1" "holidays"; created];
             acc_requests := 2 |})
    /\ initCalendarConnection Sample.steady Demo.newId (Resolved tt) Demo.settings
         {| calendars := [Demo.calendarNamed "c1" "holidays"; created];
            acc_requests := 2 |}
       = (Resolved (connected Demo.settings created),
          {| calendars := [Demo.calendarNamed "c1" "holidays"; created];
             acc_requests := 3 |}).
Proof.
  destruct (first_connection_creates_and_hangs Sample.steady Demo.newId tt
              Demo.settings Demo.freshAccount eq_refl eq_refl eq_refl)
    as (created & Hsummary & Hfirst & Hsecond).
  - intros c [<- | []]. discriminate.
  - exists created. split; [exact Hsummary | ]. split; [exact Hfirst | exact Hsecond].
Defined.

Lemma authorize_returns_client_only_from_stored_token_witness :
  authorize Demo.parse Demo.stringify Demo.noSuchFile (fun _ => None) "4/code"
    (fun _ => inr Demo.tokenJSON) "gcl/credentials.json" "gcl/token.json" Demo.disk
  = (Resolved None, ("gcl/token.json", "TOKEN") :: Demo.disk)
  /\ forall stored,
       readJSON Demo.parse Demo.noSuchFile "gcl/token.json" Demo.disk
       <> Resolved stored.
Proof.
  split; [reflexivity | ].
  destruct (authorize_returns_client_only_from_stored_token Demo.parse Demo.stringify
              Demo.noSuchFile (fun _ => None) "4/code" (fun _ => inr Demo.tokenJSON)
              "gcl/credentials.json" "gcl/token.json" Demo.disk
              (("gcl/token.json", "TOKEN") :: Demo.disk) None eq_refl)
    as [(client & content & token & Hresult & _) | (token & _ & _ & _ & Hnone)].
  - discriminate.
  - exact Hnone.
Defined.

Lemma authorize_stores_token_then_reuses_it_witness :
  fileAt "gcl/token.json" Demo.disk = None
  /\ authorize Demo.parse Demo.stringify Demo.noSuchFile (fun _ => None) "4/code"
       (fun _ => inr Demo.tokenJSON) "gcl/credentials.json" "gcl/token.json"
       Demo.disk
     = (Resolved None, ("gcl/token.json", "TOKEN") :: Demo.disk)
  /\ authorize Demo.parse Demo.stringify Demo.noSuchFile (fun _ => None) "4/code"
       (fun _ => inr Demo.tokenJSON) "gcl/credentials.json" "gcl/token.json"
       (("gcl/token.json", "TOKEN") :: Demo.disk)
     = (Resolved (Some (setCredentials Demo.client Demo.tokenJSON)),
        ("gcl/token.json", "TOKEN") :: Demo.disk).
Proof.
  split; [reflexivity | ].
  apply (authorize_stores_token_then_reuses_it Demo.parse Demo.stringify
           Demo.noSuchFile (fun _ => None) "4/code" (fun _ => inr Demo.tokenJSON)
           "gcl/credentials.json" "gcl/token.json" Demo.disk
           Demo.credentialsJSON Demo.tokenJSON Demo.client);
    try reflexivity.
  discriminate.
Defined.

Lemma authorize_stops_without_credentials_witness :
  fileAt "gcl/credentials.json" [("gcl/token.json", "TOKEN")] = None
  /\ authorize Demo.parse Demo.stringify Demo.noSuchFile (fun _ => None) "4/code"
       (fun _ => inr Demo.tokenJSON) "gcl/credentials.json" "gcl/token.json"
       [("gcl/token.json", "TOKEN")]
     = (Rejected (ApiError "ENOENT: gcl/credentials.json"),
        [("gcl/token.json", "TOKEN")]).
Proof.
  split; [reflexivity | ].
  destruct (authorize_stops_without_credentials Demo.parse Demo.stringify
              Demo.noSuchFile (fun _ => None) "4/code" (fun _ => inr Demo.tokenJSON)
              "gcl/credentials.json" "gcl/token.json" [("gcl/token.json", "TOKEN")])
    as (reason & Hrun & Hreason).
  - intros credentials H. discriminate.
  - rewrite Hrun. now rewrite (Hreason eq_refl).
Defined.

(** The code where the second report finds the new log lapsed in turn: with a
    threshold of one minute and the process's clock seventy seconds ahead of
    the server's stamps, a report on a session that is ten minutes stale
    closes it, starts a new log, finds that one lapsed, closes it, starts
    another, and so on: at a depth of 2, 6 and 40 the call has not settled and
    the calendar holds 3, 7 and 41 events. *)
Lemma lapsed_report_restarts_again_and_again :
  lastActivityOf Skew.old = Some 1699999400500
  /\ reading Skew.host Skew.calendar 0 - 1699999400500
     > msUntilInactivity Skew.logger
  /\ fst (logActivity Skew.host Skew.logger 2 "edit B" Skew.calendar) = OutOfFuel
  /\ List.length
       (events (snd (logActivity Skew.host Skew.logger 2 "edit B" Skew.calendar)))
     = 3%nat
  /\ fst (logActivity Skew.host Skew.logger 6 "edit B" Skew.calendar) = OutOfFuel
  /\ List.length
       (events (snd (logActivity Skew.host Skew.logger 6 "edit B" Skew.calendar)))
     = 7%nat
  /\ fst (logActivity Skew.host Skew.logger 40 "edit B" Skew.calendar) = OutOfFuel
  /\ List.length
       (events (snd (logActivity Skew.host Skew.logger 40 "edit B" Skew.calendar)))
     = 41%nat.
Proof. repeat split; vm_compute; reflexivity. Qed.
